(** * Hackflight RC receiver: command pipeline of [receiver.hpp]

    A shallow embedding of [hf::Receiver] (sampling with the moving
    average, the stick-combination code with its debounce counter, the
    expo/rate shaping, the auxiliary switch and [scaleup]) over IEEE-754
    binary32 arithmetic, and the properties of it that the receiver
    specification states; then the sonar extras of the simulator
    ([sim/sonar/extras.cpp]) and further properties of both; last, the
    rounding-error analysis of [scaleup] against the exact value of its
    formula. *)

From Stdlib Require Import ZArith QArith Bool Lia.
From Stdlib Require Import Floats.SpecFloat.
From Stdlib Require String DecimalString.
From stdpp Require Import base list.

Local Open Scope Z_scope.

(** * Part I: the model *)

(** ** C++ [float] and [double]

    [float] is IEEE-754 binary32 and [double] binary64; both are carried
    by [spec_float], every operation rounding to nearest, ties to even.
    Each operation is rounded on its own to the type of its operands: no
    wider intermediate precision and no fused multiply-add.
    [spec_float] has one NaN (no payload) and signed zeros and
    infinities. *)

Definition float := spec_float.

Global Instance float_inhabited : Inhabited float := populate S754_nan.

Module F32.

Definition prec : Z := 24.
Definition emax : Z := 128.

Definition add : float -> float -> float := SFadd prec emax.
Definition sub : float -> float -> float := SFsub prec emax.
Definition mul : float -> float -> float := SFmul prec emax.
Definition div : float -> float -> float := SFdiv prec emax.
Definition opp : float -> float := SFopp.
Definition abs : float -> float := SFabs.
Definition ltb : float -> float -> bool := SFltb.
Definition eqb : float -> float -> bool := SFeqb.

(** Conversion of a C++ integer to [float]. *)
Definition of_Z (z : Z) : float := binary_normalize prec emax z 0 false.

(** The [float] nearest to the decimal [n/d], for integers that
    binary32 holds exactly: a division of exact operands is rounded
    once. *)
Definition of_ratio (n d : Z) : float := div (of_Z n) (of_Z d).

(** A value of the binary32 format: the mantissa of a finite value has
    at most 24 bits and is normalised, the exponent is in range. *)
Definition valid (x : float) : bool := valid_binary prec emax x.

(** Neither an infinity nor NaN. *)
Definition is_finite (x : float) : bool :=
  match x with
  | S754_zero _ | S754_finite _ _ _ => true
  | _ => false
  end.

Definition is_zero (x : float) : bool :=
  match x with
  | S754_zero _ => true
  | _ => false
  end.

(** A finite non-zero number or an infinity. *)
Definition is_nonzero (x : float) : bool :=
  match x with
  | S754_finite _ _ _ | S754_infinity _ => true
  | _ => false
  end.

(** A zero of either sign, or NaN. *)
Definition zero_or_nan (x : float) : bool :=
  match x with
  | S754_zero _ | S754_nan => true
  | _ => false
  end.

(** The value of a finite float of the format, in units of [2^-149]
    (the smallest positive value); zero for the zeros. *)
Definition scaled (x : float) : Z :=
  match x with
  | S754_finite s m e => cond_Zopp s (Zpos m * 2 ^ (e + 149))
  | _ => 0
  end.

(** Truncation toward zero of a finite value; [None] for NaN and the
    infinities. *)
Definition trunc (x : float) : option Z :=
  match x with
  | S754_zero _ => Some 0
  | S754_finite s m e =>
      Some (cond_Zopp s
              (match e with
               | Z0 => Zpos m
               | Zpos p => Zpos m * 2 ^ e
               | Zneg p => Zpos m / 2 ^ (- e)
               end))
  | _ => None
  end.

(** Conversion of a [float] to [int16_t]: the value truncated toward
    zero; the behaviour is undefined in C++ ([None] here) when the
    truncated value does not fit the type. *)
Definition to_int16 (x : float) : option Z :=
  match trunc x with
  | Some z => if (-32768 <=? z) && (z <=? 32767) then Some z else None
  | None => None
  end.

End F32.

Module F64.

Definition prec : Z := 53.
Definition emax : Z := 1024.

Definition div : float -> float -> float := SFdiv prec emax.
Definition ltb : float -> float -> bool := SFltb.
Definition of_Z (z : Z) : float := binary_normalize prec emax z 0 false.
Definition of_ratio (n d : Z) : float := div (of_Z n) (of_Z d).

(** Promotion of a [float] to [double]: exact, the mantissa brought to
    the binary64 canonical form that [SFcompare] expects. *)
Definition of_float (x : float) : float :=
  match x with
  | S754_finite s m e => binary_round prec emax s m e
  | _ => x
  end.

End F64.


(** ** Fixed-width integers *)

Definition u8 (z : Z) : Z := z mod 256.

(** [int32_t] (and [int]) after an arithmetic step, two's complement. *)
Definition i32 (z : Z) : Z := (z + 2147483648) mod 4294967296 - 2147483648.

(** The values of [int16_t]. *)
Definition int16 (z : Z) : Prop := -32768 <= z <= 32767.

(** ** Receiver state

    [ReceiverConfig] is declared in [config.hpp], which is not among the
    sources. *)

(** Modelled from the spec: the type [ReceiverConfig], a value object
    with the five numeric fields [margin], [pitchRollExpo],
    [pitchRollRate], [throttleExpo] and [throttleMid]. *)
Record ReceiverConfig := mkConfig {
  margin : float;
  pitchRollExpo : float;
  pitchRollRate : float;
  throttleExpo : float;
  throttleMid : float
}.

(** Modelled from the spec: the channel indices [DEMAND_ROLL],
    [DEMAND_PITCH], [DEMAND_YAW] and [DEMAND_THROTTLE], the four
    flight-demand channels in this order; the auxiliary channel is
    [rawvals[4]] in the source. *)
Definition DEMAND_ROLL : nat := 0.
Definition DEMAND_PITCH : nat := 1.
Definition DEMAND_YAW : nat := 2.
Definition DEMAND_THROTTLE : nat := 3.

(** The data members of [class Receiver].  [rawvals] has
    [CONFIG_RC_CHANS] entries (a constant of [config.hpp]); the methods
    index it with 0..4 only.  [commands] has 4 entries.  An index outside
    an array is undefined behaviour in C++; on the lists here a read
    yields NaN and a write is dropped, and no method below uses an index
    outside a well-formed receiver's arrays. *)
Record Receiver := mkReceiver {
  commandDelay : Z;          (* uint8_t: cycles since most recent movement *)
  averageIndex : Z;          (* int32_t *)
  config : ReceiverConfig;
  rawvals : list float;      (* raw [-1,+1] from receiver *)
  commands : list float;
  sticks : Z                 (* uint8_t: stick positions for command combos *)
}.

Definition set_commandDelay (v : Z) (s : Receiver) : Receiver :=
  mkReceiver v (averageIndex s) (config s) (rawvals s) (commands s) (sticks s).
Definition set_averageIndex (v : Z) (s : Receiver) : Receiver :=
  mkReceiver (commandDelay s) v (config s) (rawvals s) (commands s) (sticks s).
Definition set_config (v : ReceiverConfig) (s : Receiver) : Receiver :=
  mkReceiver (commandDelay s) (averageIndex s) v (rawvals s) (commands s) (sticks s).
Definition set_rawvals (v : list float) (s : Receiver) : Receiver :=
  mkReceiver (commandDelay s) (averageIndex s) (config s) v (commands s) (sticks s).
Definition set_commands (v : list float) (s : Receiver) : Receiver :=
  mkReceiver (commandDelay s) (averageIndex s) (config s) (rawvals s) v (sticks s).
Definition set_sticks (v : Z) (s : Receiver) : Receiver :=
  mkReceiver (commandDelay s) (averageIndex s) (config s) (rawvals s) (commands s) v.

(** What one call of [update()] takes from outside the object: the
    answers of the pure virtual methods [useSerial()] and
    [readChannel(chan)], and the contents that the automatic array
    [float averageRaw[5][4]] happens to have when the call begins (it is
    declared without an initialiser, so they are indeterminate). *)
Record Env := mkEnv {
  useSerial : bool;
  readChannel : nat -> float;
  averageRaw : list (list float)
}.

(** ** The state monad of the member functions *)

Definition M (A : Type) : Type := Receiver -> A * Receiver.

Definition ret {A} (a : A) : M A := fun s => (a, s).
Definition bind {A B} (c : M A) (k : A -> M B) : M B :=
  fun s => let (a, s') := c s in k a s'.
Definition gets {A} (f : Receiver -> A) : M A := fun s => (f s, s).
Definition modify (f : Receiver -> Receiver) : M unit := fun s => (tt, f s).

Definition eval {A} (c : M A) (s : Receiver) : A := fst (c s).
Definition exec {A} (c : M A) (s : Receiver) : Receiver := snd (c s).

Declare Scope rx_scope.
Delimit Scope rx_scope with rx.
Notation "x <- c ;; k" := (bind c (fun x => k))
  (at level 100, c at next level, right associativity) : rx_scope.
Notation "c ;; k" := (bind c (fun _ => k))
  (at level 100, right associativity) : rx_scope.
Local Open Scope rx_scope.

(** [for (i = lo; i < hi; i++) body], with the locals the body assigns
    threaded through as [l]. *)
Fixpoint for_ {L} (idxs : list nat) (body : nat -> L -> M L) (l : L) : M L :=
  match idxs with
  | [] => ret l
  | i :: rest => l' <- body i l ;; for_ rest body l'
  end.

(** Array accesses. *)
Definition rawval (chan : nat) : M float := gets (fun s => rawvals s !!! chan).
Definition command (chan : nat) : M float := gets (fun s => commands s !!! chan).
Definition put_rawval (chan : nat) (v : float) : M unit :=
  modify (fun s => set_rawvals (<[chan := v]> (rawvals s)) s).
Definition put_command (chan : nat) (v : float) : M unit :=
  modify (fun s => set_commands (<[chan := v]> (commands s)) s).

(** [a[chan][k] = v] on a two-dimensional automatic array; [k] is a C++
    [int] and may be negative, which is outside the array. *)
Definition put_slot (a : list (list float)) (chan : nat) (k : Z) (v : float)
  : list (list float) :=
  if 0 <=? k then <[chan := <[Z.to_nat k := v]> (a !!! chan)]> a else a.

(** ** The member functions *)

(** [Receiver::init].  [begin()] initialises the hardware and touches no
    data member; [rawvals] and [commands] keep what they held. *)
Definition init (rcConfig : ReceiverConfig) : M unit :=
  modify (set_config rcConfig) ;;
  modify (set_commandDelay 0) ;;
  modify (set_sticks 0) ;;
  modify (set_averageIndex 0).

(** Body of the serial loop: [rawvals[chan] = readChannel(chan)]. *)
Definition read_direct (e : Env) (chan : nat) (_ : unit) : M unit :=
  put_rawval chan (readChannel e chan).

(** Body of the averaging loop; the local array is threaded through. *)
Definition read_averaged (e : Env) (chan : nat) (a : list (list float))
  : M (list (list float)) :=
  idx <- gets averageIndex ;;
  let a := put_slot a chan (Z.rem idx 4) (readChannel e chan) in
  put_rawval chan (F32.of_Z 0) ;;
  for_ (seq 0 4) (fun i _ =>
      r <- rawval chan ;;
      put_rawval chan (F32.add r ((a !!! chan) !!! i))) tt ;;
  r <- rawval chan ;;
  put_rawval chan (F32.div r (F32.of_Z 4)) ;;
  ret a.

(** Body of the stick loop, on the local [uint8_t stTmp]. *)
Definition check_stick (i : nat) (stTmp : Z) : M Z :=
  let stTmp := u8 (Z.shiftr stTmp 2) in
  r <- rawval i ;;
  m <- gets (fun s => margin (config s)) ;;
  let stTmp :=
    if F32.ltb (F32.add (F32.of_Z (-1)) m) r
    then u8 (Z.lor stTmp 0x80) else stTmp in      (* check for MIN *)
  let stTmp :=
    if F32.ltb r (F32.sub (F32.of_Z 1) m)
    then u8 (Z.lor stTmp 0x40) else stTmp in      (* check for MAX *)
  ret stTmp.

(** [Receiver::update], first block: the channels are read into
    [rawvals].  [averageIndex++] on the largest [int32_t] is undefined in
    C++; it wraps here. *)
Definition read_channels (e : Env) : M unit :=
  if useSerial e
  then
    (* Serial receivers provide clean data and can be read directly *)
    for_ (seq 0 5) (read_direct e) tt
  else
    (* Other kinds of receivers require average of channel values *)
    for_ (seq 0 5) (read_averaged e) (averageRaw e) ;;
    idx <- gets averageIndex ;;
    modify (set_averageIndex (i32 (idx + 1))).

(** [Receiver::update], the loop over the four sticks: [stTmp]. *)
Definition stick_code : M Z := for_ (seq 0 4) check_stick 0.

(** [Receiver::update]. *)
Definition update (e : Env) : M unit :=
  read_channels e ;;
  (* check stick positions, updating command delay *)
  stTmp <- stick_code ;;
  old <- gets sticks ;;
  (if stTmp =? old
   then
     cd <- gets commandDelay ;;
     if cd <? 250 then modify (set_commandDelay (u8 (cd + 1))) else ret tt
   else modify (set_commandDelay 0)) ;;
  modify (set_sticks stTmp).

(** [Receiver::changed]. *)
Definition changed : M bool :=
  cd <- gets commandDelay ;;
  ret (cd =? 20).

(** [Receiver::rcFun]. *)
Definition rcFun (x e r : float) : float :=
  F32.mul
    (F32.mul
       (F32.add (F32.of_Z 1)
          (F32.mul e (F32.sub (F32.mul x x) (F32.of_Z 1))))
       x)
    r.

(** [Receiver::throttleFun]. *)
Definition throttleFun (x e mid : float) : float :=
  let tmp := F32.sub x mid in
  let y :=
    if F32.ltb (F32.of_Z 0) tmp then F32.sub (F32.of_Z 1) mid
    else if F32.ltb tmp (F32.of_Z 0) then mid
    else F32.of_Z 1 in
  F32.add mid
    (F32.mul tmp
       (F32.add (F32.sub (F32.of_Z 1) e)
          (F32.div (F32.mul e (F32.mul tmp tmp)) (F32.mul y y)))).

(** [Receiver::makePositiveCommand]; [std::abs] on a [float] is the
    floating-point overload. *)
Definition makePositiveCommand (channel : nat) : M unit :=
  r <- rawval channel ;;
  put_command channel (F32.abs r).

(** [Receiver::applyPitchRollFunction]. *)
Definition applyPitchRollFunction (channel : nat) : M unit :=
  c <- command channel ;;
  e <- gets (fun s => pitchRollExpo (config s)) ;;
  r <- gets (fun s => pitchRollRate (config s)) ;;
  put_command channel (rcFun c e r).

(** [Receiver::adjustCommand]. *)
Definition adjustCommand (channel : nat) : M unit :=
  c <- command channel ;;
  put_command channel (F32.div c (F32.of_Z 2)) ;;
  r <- rawval channel ;;
  if F32.ltb r (F32.of_Z 0)
  then c <- command channel ;; put_command channel (F32.opp c)
  else ret tt.

(** [Receiver::computeExpo]. *)
Definition computeExpo : M unit :=
  (* Convert raw [-1,+1] to absolute value *)
  makePositiveCommand DEMAND_ROLL ;;
  makePositiveCommand DEMAND_PITCH ;;
  makePositiveCommand DEMAND_YAW ;;
  (* Apply expo nonlinearity to roll, pitch *)
  applyPitchRollFunction DEMAND_ROLL ;;
  applyPitchRollFunction DEMAND_PITCH ;;
  (* Put sign back on command, yielding [-0.5,+0.5] *)
  adjustCommand DEMAND_ROLL ;;
  adjustCommand DEMAND_PITCH ;;
  adjustCommand DEMAND_YAW ;;
  (* Yaw demand needs to be reversed *)
  c <- command DEMAND_YAW ;;
  put_command DEMAND_YAW (F32.opp c) ;;
  (* Special handling for throttle *)
  r <- rawval DEMAND_THROTTLE ;;
  let tmp := F32.div (F32.add r (F32.of_Z 1)) (F32.of_Z 2) in
  e <- gets (fun s => throttleExpo (config s)) ;;
  mid <- gets (fun s => throttleMid (config s)) ;;
  put_command DEMAND_THROTTLE (throttleFun tmp e mid).

(** [Receiver::getAuxState].  The literal [0.4] is a [double], so the
    second comparison is made in binary64 on the promoted [aux]. *)
Definition getAuxState : M Z :=
  aux <- rawval 4 ;;
  ret (u8 (if F32.ltb aux (F32.of_Z 0) then 0
           else if F64.ltb (F64.of_float aux) (F64.of_ratio 4 10) then 1
           else 2)).

(** [Receiver::lostSignal], unless a receiver overrides it. *)
Definition lostSignal : M bool := ret false.

(** [Receiver::throttleIsDown]. *)
Definition throttleIsDown : M bool :=
  r <- rawval DEMAND_THROTTLE ;;
  m <- gets (fun s => margin (config s)) ;;
  ret (F32.ltb r (F32.add (F32.of_Z (-1)) m)).

(** [Receiver::scaleup].  The operands follow the usual arithmetic
    conversions: [out_max - out_min] is an [int] subtraction of the
    promoted [int16_t] operands, its result and [out_min] are converted
    to [float], and the [float] value of the expression is converted to
    the return type [int16_t].  The function reads no data member. *)
Definition scaleup (x in_min in_max : float) (out_min out_max : Z) : option Z :=
  F32.to_int16
    (F32.add
       (F32.div
          (F32.mul (F32.sub x in_min) (F32.of_Z (i32 (out_max - out_min))))
          (F32.sub in_max in_min))
       (F32.of_Z out_min)).

(** ** Definitions for the statements *)







(** Modelled from the spec: the auxiliary-state enum {LOW, MID, HIGH}
    that the value returned by [getAuxState] stands for. *)
Definition AUX_LOW : Z := 0.
Definition AUX_MID : Z := 1.
Definition AUX_HIGH : Z := 2.

(** A run of [update()] calls, one per control-loop cycle. *)
Fixpoint run (es : list Env) : M unit :=
  match es with
  | [] => ret tt
  | e :: rest => update e ;; run rest
  end.

(** The stick-combination code stays what it is over the cycles [es]. *)
Fixpoint steady (es : list Env) (s : Receiver) : bool :=
  match es with
  | [] => true
  | e :: rest =>
      (sticks (exec (update e) s) =? sticks s) && steady rest (exec (update e) s)
  end.

(** The two comparisons of [check_stick] on channel [i]. *)
Definition above_min (s : Receiver) (i : nat) : bool :=
  F32.ltb (F32.add (F32.of_Z (-1)) (margin (config s))) (rawvals s !!! i).
Definition below_max (s : Receiver) (i : nat) : bool :=
  F32.ltb (rawvals s !!! i) (F32.sub (F32.of_Z 1) (margin (config s))).

(** The states a receiver goes through: [init], then any sequence of
    [update] and [computeExpo] calls. *)
Inductive reachable : Receiver -> Prop :=
  | reach_init cfg s : reachable (exec (init cfg) s)
  | reach_update e s : reachable s -> reachable (exec (update e) s)
  | reach_expo s : reachable s -> reachable (exec computeExpo s).

(** [preserves f c]: the computation [c] leaves the observation [f] of
    the receiver as it was. *)
Definition preserves {A B} (f : Receiver -> A) (c : M B) : Prop :=
  forall s, f (exec c s) = f s.

(** One [update()]: the state after the reading block, the code computed
    from it, and the counter. *)
Definition debounce (st : Z) (s1 : Receiver) : Receiver :=
  set_sticks st
    (if st =? sticks s1
     then if commandDelay s1 <? 250
          then set_commandDelay (u8 (commandDelay s1 + 1)) s1 else s1
     else set_commandDelay 0 s1).

(** The two bits that one pass of the stick loop adds above the code
    shifted so far. *)
Definition pack (a b : bool) (st : Z) : Z :=
  let st := if a then u8 (Z.lor st 0x80) else st in
  if b then u8 (Z.lor st 0x40) else st.

(** The bit pair of channel [i]: the MIN check in the upper bit, the MAX
    check in the lower bit. *)
Definition pair_of (s : Receiver) (i : nat) : Z :=
  2 * Z.b2z (above_min s i) + Z.b2z (below_max s i).

(** The mean that [read_averaged] takes of one row of [averageRaw]. *)
Definition mean4 (row : list float) : float :=
  F32.div
    (F32.add (F32.add (F32.add (F32.add (F32.of_Z 0) (row !!! 0%nat)) (row !!! 1%nat))
       (row !!! 2%nat)) (row !!! 3%nat))
    (F32.of_Z 4).

(** Sign restoration of [adjustCommand]. *)
Definition restore_sign (r c : float) : float :=
  if F32.ltb r (F32.of_Z 0) then F32.opp c else c.

Definition shaped_roll_pitch (cfg : ReceiverConfig) (r : float) : float :=
  restore_sign r
    (F32.div (rcFun (F32.abs r) (pitchRollExpo cfg) (pitchRollRate cfg)) (F32.of_Z 2)).

Definition shaped_yaw (r : float) : float :=
  F32.opp (restore_sign r (F32.div (F32.abs r) (F32.of_Z 2))).

Definition shaped_throttle (cfg : ReceiverConfig) (r : float) : float :=
  throttleFun (F32.div (F32.add r (F32.of_Z 1)) (F32.of_Z 2))
    (throttleExpo cfg) (throttleMid cfg).

(** ** Fixtures: the configuration and inputs of the specification's
    end-to-end scenario *)

(** [{margin=0.1, pitchRollExpo=0.5, pitchRollRate=1.0, throttleExpo=0.3,
    throttleMid=0.5}]. *)
Definition scenario_config : ReceiverConfig :=
  mkConfig (F32.of_ratio 1 10) (F32.of_ratio 1 2) (F32.of_Z 1)
    (F32.of_ratio 3 10) (F32.of_ratio 1 2).

(** The storage of a receiver object before [init()]. *)
Definition blank : Receiver :=
  mkReceiver 0 0 (mkConfig S754_nan S754_nan S754_nan S754_nan S754_nan)
    (replicate 5 S754_nan) (replicate 4 S754_nan) 0.

Definition booted : Receiver := exec (init scenario_config) blank.

(** A serial receiver that delivers the values [l]. *)
Definition direct (l : list float) : Env := mkEnv true (fun chan => l !!! chan) [].

(** A noisy receiver that delivers [v] on every channel, entered with
    the automatic array holding [a]. *)
Definition noisy (v : float) (a : list (list float)) : Env :=
  mkEnv false (fun _ => v) a.

Definition centred : Env := direct (replicate 5 (F32.of_Z 0)).

(** [[roll=0.6, pitch=-0.6, yaw=0.3, throttle=0.0, aux=0.5]]. *)
Definition scenario_input : Env :=
  direct [F32.of_ratio 6 10; F32.of_ratio (-6) 10; F32.of_ratio 3 10;
          F32.of_Z 0; F32.of_ratio 1 2].

(** The auxiliary state read after a cycle that delivers [v] on the
    auxiliary channel. *)
Definition aux_of (v : float) : Z :=
  eval getAuxState
    (exec (update (direct (replicate 4 (F32.of_Z 0) ++ [v]))) booted).


(** The number of cycles of a run that take the averaging path of
    [update()]. *)
Fixpoint filtered_cycles (es : list Env) : Z :=
  match es with
  | [] => 0
  | e :: rest => (if useSerial e then 0 else 1) + filtered_cycles rest
  end.

(** A configuration like that of the scenario, with no expo on roll and
    pitch. *)
Definition linear_config : ReceiverConfig :=
  mkConfig (F32.of_ratio 1 10) (F32.of_Z 0) (F32.of_Z 1)
    (F32.of_ratio 3 10) (F32.of_ratio 1 2).

(** * The sonar extras of the simulator ([sim/sonar/extras.cpp]) *)

Module Sonar.

Import Stdlib.Strings.String.

(** What the functions ask of the simulator, whose API is not part of
    the sources: [simGetObjectHandle(name)], and
    [simReadProximitySensor(handle, detectedPoint, NULL, NULL)], of which
    the code uses the [int] it returns and, where that is positive, the
    [float] it has left in [detectedPoint[3]]. *)
Record Simulator := mkSimulator {
  simGetObjectHandle : string -> Z;
  simReadProximitySensor : Z -> Z * float
}.

Definition sonarNames : list string :=
  ["Sonar_Back"; "Sonar_Bottom"; "Sonar_Front"; "Sonar_Left"; "Sonar_Right"]%string.

(** Conversion of a [float] to [int]: the value truncated toward zero;
    the behaviour is undefined in C++ ([None] here) when the truncated
    value does not fit the type. *)
Definition to_int (x : float) : option Z :=
  match F32.trunc x with
  | Some z => if (-2147483648 <=? z) && (z <=? 2147483647) then Some z else None
  | None => None
  end.

(** What [printf] writes for [%d]. *)
Definition decimal (z : Z) : string :=
  DecimalString.NilZero.string_of_int (Z.to_int z).

(** [extrasStart], on the file-scope array [static int sonarHandles[5]]
    (zero-initialised when the program starts). *)
Definition extrasStart (sim : Simulator) (sonarHandles : list Z) : list Z :=
  foldl (fun h k => <[k := simGetObjectHandle sim (nth k sonarNames EmptyString)]> h)
    sonarHandles (seq 0 5).

(** Body of the loop of [extrasUpdate]: the local array [sonarDistances],
    filled in index order, and the text written so far.  The automatic
    array [detectedPoint] is read only where the simulator has written
    it. *)
Definition sonar (sim : Simulator) (sonarHandles : list Z) (k : nat)
    (acc : option (list Z * string)) : option (list Z * string) :=
  match acc with
  | None => None
  | Some (sonarDistances, out) =>
      let '(detected, distance) := simReadProximitySensor sim (sonarHandles !!! k) in
      match (if 0 <? detected
             then to_int (F32.mul distance (F32.of_Z 100))   (* m to cm *)
             else Some 0) with
      | None => None
      | Some sonarDistance =>
          (* Keep in MB142 range *)
          let d := Z.min (Z.max sonarDistance 20) 765 in
          Some (sonarDistances ++ [d],
                append out
                  (append (nth k sonarNames EmptyString)
                     (append ": " (append (decimal d) " | "))))
      end
  end.

(** [extrasUpdate]: the distances it computes and the line it prints;
    [None] where a conversion to [int] is undefined. *)
Definition extrasUpdate (sim : Simulator) (sonarHandles : list Z)
  : option (list Z * string) :=
  match foldl (fun acc k => sonar sim sonarHandles k acc)
          (Some ([], EmptyString)) (seq 0 5) with
  | Some (sonarDistances, out) =>
      Some (sonarDistances, append out (String (Ascii.ascii_of_nat 10) EmptyString))
  | None => None
  end.

(** [extrasStop]: an empty body. *)
Definition extrasStop (sonarHandles : list Z) : list Z := sonarHandles.

End Sonar.

(** A simulator in which no sonar detects anything (and leaves NaN in the
    detected point), and one with a wall 1.5 m from every sonar. *)
Definition quiet : Sonar.Simulator :=
  Sonar.mkSimulator (fun _ => 7) (fun _ => (0, S754_nan)).
Definition wall : Sonar.Simulator :=
  Sonar.mkSimulator (fun _ => 7) (fun _ => (1, F32.of_ratio 15 10)).

(** * Part II: lemmas *)

(** ** Rounding in binary32

    What [binary_round_aux] does to the mantissa: digits, right shifts,
    the round bit, and two consequences, that a value below the overflow
    threshold rounds to a finite number and that a non-zero value at an
    exponent of the format does not round to zero. *)

Lemma digits2_pos_bounds m :
  2 ^ (Zpos (digits2_pos m) - 1) <= Zpos m < 2 ^ Zpos (digits2_pos m).
Proof.
  induction m as [m IH | m IH |]; cbn [digits2_pos].
  - change (Zpos m~1) with (2 * Zpos m + 1). rewrite Pos2Z.inj_succ.
    replace (Z.succ (Zpos (digits2_pos m)) - 1) with (Z.succ (Zpos (digits2_pos m) - 1)) by lia.
    rewrite !Z.pow_succ_r by lia. lia.
  - change (Zpos m~0) with (2 * Zpos m). rewrite Pos2Z.inj_succ.
    replace (Z.succ (Zpos (digits2_pos m)) - 1) with (Z.succ (Zpos (digits2_pos m) - 1)) by lia.
    rewrite !Z.pow_succ_r by lia. lia.
  - simpl. lia.
Qed.

Lemma digits2_pos_le m k : 0 <= k -> Zpos m < 2 ^ k -> Zpos (digits2_pos m) <= k.
Proof.
  intros Hk Hm. destruct (digits2_pos_bounds m) as [Hlo _].
  destruct (Z.le_gt_cases (Zpos (digits2_pos m)) k) as [H | H]; [exact H |].
  assert (2 ^ k <= 2 ^ (Zpos (digits2_pos m) - 1)) by (apply Z.pow_le_mono_r; lia).
  lia.
Qed.

(** One right shift halves the mantissa and records the bit shifted
    out. *)
Lemma shr_1_spec m r s :
  0 <= m ->
  shr_m (shr_1 (Build_shr_record m r s)) = m / 2
  /\ shr_r (shr_1 (Build_shr_record m r s)) = Z.odd m.
Proof.
  intros Hm. rewrite <- Z.div2_div.
  destruct m as [|[p|p|]|]; try lia; split; reflexivity.
Qed.

(** [n] right shifts divide the mantissa by [2^n]; the round bit is the
    last bit shifted out. *)
Lemma iter_shr_spec n : forall mrs,
  0 <= shr_m mrs ->
  shr_m (SpecFloat.iter_pos shr_1 n mrs) = shr_m mrs / 2 ^ Zpos n
  /\ shr_r (SpecFloat.iter_pos shr_1 n mrs) = Z.odd (shr_m mrs / 2 ^ (Zpos n - 1)).
Proof.
  induction n as [n IH | n IH |]; intros mrs Hm; cbn [SpecFloat.iter_pos].
  - destruct mrs as [m r s]. cbn [shr_m] in *.
    destruct (shr_1_spec m r s Hm) as [H1 _].
    assert (H0 : 0 <= shr_m (shr_1 (Build_shr_record m r s)))
      by (rewrite H1; apply Z.div_pos; lia).
    destruct (IH _ H0) as [H2 _].
    assert (H3 : 0 <= shr_m (SpecFloat.iter_pos shr_1 n (shr_1 (Build_shr_record m r s))))
      by (rewrite H2; apply Z.div_pos; lia).
    destruct (IH _ H3) as [H4 H5].
    rewrite H4, H5, H2, H1.
    replace (Zpos n~1) with (1 + Zpos n + Zpos n) by lia.
    replace (1 + Zpos n + Zpos n - 1) with (1 + Zpos n + (Zpos n - 1)) by lia.
    rewrite !Z.pow_add_r, Z.pow_1_r by lia.
    rewrite !Z.div_div by lia. rewrite <- ?Z.mul_assoc. split; reflexivity.
  - assert (H3 : 0 <= shr_m (SpecFloat.iter_pos shr_1 n mrs)).
    { rewrite (proj1 (IH _ Hm)). apply Z.div_pos; lia. }
    destruct (IH _ H3) as [H4 H5]. destruct (IH _ Hm) as [H2 _].
    rewrite H4, H5, H2.
    replace (Zpos n~0) with (Zpos n + Zpos n) by lia.
    replace (Zpos n + Zpos n - 1) with (Zpos n + (Zpos n - 1)) by lia.
    rewrite !Z.pow_add_r by lia.
    rewrite !Z.div_div by lia. rewrite <- ?Z.mul_assoc. split; reflexivity.
  - destruct mrs as [m r s]. cbn [shr_m] in *.
    destruct (shr_1_spec m r s Hm) as [H1 H2]. rewrite H1, H2.
    split; [reflexivity |]. simpl. rewrite Z.div_1_r. reflexivity.
Qed.

Lemma round_nearest_even_bounds mrs :
  let m2 := round_nearest_even (shr_m mrs) (loc_of_shr_record mrs) in
  shr_m mrs <= m2 <= shr_m mrs + 1 /\ (shr_r mrs = false -> m2 = shr_m mrs).
Proof.
  destruct mrs as [m [] []]; cbn; destruct (Z.even m); split; (lia || discriminate || reflexivity).
Qed.

(** The last stage of [binary_round_aux]: a mantissa below [2^(128-e)]
    at an exponent within the binary32 range ends finite. *)
Lemma last_stage_finite sx m2 fe :
  0 <= m2 -> -149 <= fe <= 104 -> m2 < 2 ^ (128 - fe) ->
  F32.is_finite
    (let '(mrs, e) := shr_fexp 24 128 m2 fe loc_Exact in
     match shr_m mrs with
     | Z0 => S754_zero sx
     | Zpos m => if e <=? 128 - 24 then S754_finite sx m e else S754_infinity sx
     | Zneg _ => S754_nan
     end) = true.
Proof.
  intros Hm Hfe Hlt. unfold shr_fexp, fexp, emin, shr.
  change (3 - 128 - 24) with (-149). change (128 - 24) with 104.
  destruct m2 as [|q|q]; [| | lia]; cbn [Zdigits2 shr_record_of_loc].
  - destruct (Z.max (0 + fe - 24) (-149) - fe) eqn:En; try lia; reflexivity.
  - assert (Hd : Zpos (digits2_pos q) <= 128 - fe) by (apply digits2_pos_le; lia).
    destruct (Z.max (Zpos (digits2_pos q) + fe - 24) (-149) - fe) as [|n|n] eqn:En;
      cbn [shr_m].
    + destruct (Z.leb_spec fe 104); [reflexivity | lia].
    + destruct (iter_shr_spec n (Build_shr_record (Zpos q) false false)) as [H1 _];
        [cbn; lia |].
      cbn [shr_m] in H1. rewrite H1.
      assert (0 <= Zpos q / 2 ^ Zpos n) by (apply Z.div_pos; lia).
      destruct (Zpos q / 2 ^ Zpos n); [reflexivity | | lia].
      destruct (Z.leb_spec (fe + Zpos n) 104); [reflexivity | lia].
    + destruct (Z.leb_spec fe 104); [reflexivity | lia].
Qed.

(** The first stage: the value is below the midpoint between the
    largest binary32 value and [2^128]. *)
Lemma first_stage_bounds m e :
  2 * Zpos m < (2 ^ 25 - 1) * 2 ^ (104 - e) ->
  let '(mrs, e') := shr_fexp 24 128 (Zpos m) e loc_Exact in
  let m2 := round_nearest_even (shr_m mrs) (loc_of_shr_record mrs) in
  0 <= m2 /\ -149 <= e' <= 104 /\ m2 < 2 ^ (128 - e').
Proof.
  intros H.
  assert (He : e <= 104).
  { destruct (Z.le_gt_cases e 104) as [He | He]; [exact He |].
    rewrite (Z.pow_neg_r 2 (104 - e)) in H by lia. lia. }
  assert (HT : 0 < 2 ^ (104 - e)) by (apply Z.pow_pos_nonneg; lia).
  assert (Hm : Zpos m < 2 ^ (128 - e)).
  { replace (128 - e) with (24 + (104 - e)) by lia.
    rewrite Z.pow_add_r by lia. change (2 ^ 24) with 16777216.
    change (2 ^ 25) with 33554432 in H. lia. }
  assert (Hd : Zpos (digits2_pos m) <= 128 - e) by (apply digits2_pos_le; lia).
  unfold shr_fexp, fexp, emin, shr.
  change (3 - 128 - 24) with (-149). cbn [Zdigits2 shr_record_of_loc].
  set (fe := Z.max (Zpos (digits2_pos m) + e - 24) (-149)).
  destruct (fe - e) as [|n|n] eqn:En;
    cbn [shr_m shr_r shr_s loc_of_shr_record round_nearest_even];
    try (repeat split; lia).
  set (R := SpecFloat.iter_pos shr_1 n (Build_shr_record (Zpos m) false false)).
  destruct (iter_shr_spec n (Build_shr_record (Zpos m) false false)) as [H1 H2];
    [cbn; lia |].
  fold R in H1, H2. cbn [shr_m] in H1, H2.
  destruct (round_nearest_even_bounds R) as [[Hlo Hhi] Hr]. cbv zeta in *.
  set (m2 := round_nearest_even (shr_m R) (loc_of_shr_record R)) in *.
  assert (H0 : 0 <= shr_m R) by (rewrite H1; apply Z.div_pos; lia).
  split; [lia |]. split; [lia |].
  (* a = m / 2^(n-1): the mantissa with the round bit still on it *)
  set (a := Zpos m / 2 ^ (Zpos n - 1)) in *.
  assert (HN : 0 < 2 ^ (Zpos n - 1)) by (apply Z.pow_pos_nonneg; lia).
  assert (Ha : a * 2 ^ (Zpos n - 1) <= Zpos m).
  { unfold a. rewrite Z.mul_comm. apply Z.mul_div_le. exact HN. }
  assert (Hm' : shr_m R = a / 2).
  { rewrite H1. unfold a. rewrite Z.div_div by lia.
    rewrite Z.mul_comm, <- Z.pow_succ_r by lia. f_equal. f_equal. lia. }
  assert (H2m : 2 * m2 <= a + 1).
  { pose proof (Z.div_mod a 2 ltac:(lia)) as Hdm.
    rewrite Zmod_odd in Hdm. destruct (Z.odd a) eqn:Eo.
    - lia.
    - rewrite (Hr H2). lia. }
  (* 2^(104-e) = 2^(104-fe) * 2^n *)
  assert (Hfe : e + Zpos n = fe) by lia.
  rewrite Hfe.
  assert (HTf : 0 < 2 ^ (104 - fe)) by (apply Z.pow_pos_nonneg; lia).
  replace (104 - e) with ((104 - fe) + (1 + (Zpos n - 1))) in H by lia.
  rewrite !Z.pow_add_r, Z.pow_1_r in H by lia.
  replace (128 - fe) with (24 + (104 - fe)) by lia.
  rewrite Z.pow_add_r by lia.
  change (2 ^ 24) with 16777216. change (2 ^ 25) with 33554432 in H.
  set (T := 2 ^ (104 - fe)) in *. set (N' := 2 ^ (Zpos n - 1)) in *.
  destruct (Z.lt_ge_cases m2 (16777216 * T)) as [Hok | Hbad]; [exact Hok | exfalso].
  assert (2 * m2 * N' <= (a + 1) * N') by (apply Z.mul_le_mono_nonneg_r; lia).
  assert (2 * (16777216 * T) * N' <= 2 * m2 * N').
  { apply Z.mul_le_mono_nonneg_r; lia. }
  assert (N' <= T * N') by nia.
  nia.
Qed.

Lemma binary_round_aux_finite sx m e :
  2 * Zpos m < (2 ^ 25 - 1) * 2 ^ (104 - e) ->
  F32.is_finite (binary_round_aux 24 128 sx (Zpos m) e loc_Exact) = true.
Proof.
  intros H. apply first_stage_bounds in H. unfold binary_round_aux.
  destruct (shr_fexp 24 128 (Zpos m) e loc_Exact) as [mrs e'].
  destruct H as (H0 & He & Hlt). apply last_stage_finite; assumption.
Qed.

Lemma iter_xO_spec d mx : Zpos (Pos.iter xO mx d) = Zpos mx * 2 ^ Zpos d.
Proof.
  induction d as [|d IH] using Pos.peano_ind.
  - simpl. lia.
  - rewrite Pos.iter_succ, Pos2Z.inj_succ, Z.pow_succ_r by lia.
    change (Zpos (Pos.iter xO mx d)~0) with (2 * Zpos (Pos.iter xO mx d)).
    rewrite IH. lia.
Qed.

Lemma shl_align_fst mx ex ez :
  ez <= ex -> Zpos (fst (shl_align mx ex ez)) = Zpos mx * 2 ^ (ex - ez).
Proof.
  intros H. unfold shl_align. destruct (ez - ex) as [|d|d] eqn:E; cbn [fst].
  - replace (ex - ez) with 0 by lia. lia.
  - lia.
  - rewrite iter_xO_spec. f_equal. f_equal. lia.
Qed.

Lemma shl_align_snd mx ex ez : ez <= ex -> snd (shl_align mx ex ez) = ez.
Proof.
  intros H. unfold shl_align. destruct (ez - ex) as [|d|d] eqn:E; cbn [snd]; lia.
Qed.

Lemma shl_align_id mx ex ez : ex <= ez -> shl_align mx ex ez = (mx, ex).
Proof.
  intros H. unfold shl_align. destruct (ez - ex) as [|d|d] eqn:E; try reflexivity; lia.
Qed.

Lemma binary_round_finite sx mx ex :
  2 * Zpos mx < (2 ^ 25 - 1) * 2 ^ (104 - ex) ->
  F32.is_finite (binary_round 24 128 sx mx ex) = true.
Proof.
  intros H. unfold binary_round.
  set (fe := fexp 24 128 (Zpos (digits2_pos mx) + ex)).
  destruct (Z.le_gt_cases ex fe) as [Hle | Hgt].
  - rewrite shl_align_id by exact Hle. apply binary_round_aux_finite, H.
  - pose proof (shl_align_fst mx ex fe ltac:(lia)) as Hf.
    pose proof (shl_align_snd mx ex fe ltac:(lia)) as Hs.
    destruct (shl_align mx ex fe) as [mz ez]. cbn [fst snd] in Hf, Hs. subst ez.
    apply binary_round_aux_finite. rewrite Hf.
    assert (He : ex <= 104).
    { destruct (Z.le_gt_cases ex 104) as [He | He]; [exact He |].
      rewrite (Z.pow_neg_r 2 (104 - ex)) in H by lia. lia. }
    replace (104 - fe) with ((104 - ex) + (ex - fe)) by lia.
    rewrite Z.pow_add_r by lia.
    assert (0 < 2 ^ (ex - fe)) by (apply Z.pow_pos_nonneg; lia).
    nia.
Qed.

Lemma binary_normalize_finite m e :
  2 * Z.abs m < (2 ^ 25 - 1) * 2 ^ (104 - e) ->
  F32.is_finite (binary_normalize 24 128 m e false) = true.
Proof.
  intros H. destruct m as [|p|p]; cbn [binary_normalize]; [reflexivity | |];
    apply binary_round_finite; exact H.
Qed.

(** The mantissa of a valid binary32 value has at most 24 bits and its
    exponent is at most 104. *)
Lemma bounded_spec m e :
  bounded 24 128 m e = true -> Zpos m < 2 ^ 24 /\ e <= 104.
Proof.
  unfold bounded, canonical_mantissa, fexp, emin.
  change (3 - 128 - 24) with (-149). change (128 - 24) with 104.
  intros [Hc He]%andb_prop. apply Z.eqb_eq in Hc. apply Z.leb_le in He.
  split; [| exact He].
  destruct (digits2_pos_bounds m) as [_ Hhi].
  assert (2 ^ Zpos (digits2_pos m) <= 2 ^ 24) by (apply Z.pow_le_mono_r; lia).
  lia.
Qed.

Lemma sub_one_finite x :
  valid_binary 24 128 x = true -> F32.is_finite x = true ->
  F32.is_finite (SFsub 24 128 (S754_finite false 8388608 (-23)) x) = true.
Proof.
  destruct x as [s|s| |s m e]; try discriminate; [reflexivity |].
  cbn [valid_binary]. intros Hb _. apply bounded_spec in Hb as [Hm He].
  unfold SFsub. set (ez := Z.min (-23) e).
  apply binary_normalize_finite.
  rewrite !shl_align_fst by (unfold ez; lia).
  assert (HU : 0 < 2 ^ (-23 - ez)) by (apply Z.pow_pos_nonneg; unfold ez; lia).
  assert (HV : 0 < 2 ^ (e - ez)) by (apply Z.pow_pos_nonneg; unfold ez; lia).
  assert (HW1 : 2 ^ (104 - ez) = 2 ^ 127 * 2 ^ (-23 - ez)).
  { rewrite <- Z.pow_add_r by (unfold ez; lia). f_equal. lia. }
  assert (HW2 : 2 ^ (104 - ez) = 2 ^ (104 - e) * 2 ^ (e - ez)).
  { rewrite <- Z.pow_add_r by (unfold ez; lia). f_equal. lia. }
  assert (HX : 0 < 2 ^ (104 - e)) by (apply Z.pow_pos_nonneg; lia).
  change (2 ^ 24) with 16777216 in Hm. change (2 ^ 25) with 33554432.
  set (U := 2 ^ (-23 - ez)) in *. set (V := 2 ^ (e - ez)) in *.
  set (W := 2 ^ (104 - ez)) in *.
  assert (HVW : V <= W) by (rewrite HW2; nia).
  assert (HmV : Zpos m * V <= 16777215 * V) by (apply Z.mul_le_mono_nonneg_r; lia).
  change (2 ^ 127) with 170141183460469231731687303715884105728 in HW1.
  assert (Habs : Z.abs (8388608 * U - cond_Zopp s (Zpos m * V)) <= 8388608 * U + Zpos m * V).
  { destruct s; cbn [cond_Zopp]; lia. }
  cbn [cond_Zopp]. clear HW2 HX. clearbody U V W. lia.
Qed.

Lemma shr_fexp_positive m e :
  0 < m -> -149 <= e ->
  let '(mrs, e') := shr_fexp 24 128 m e loc_Exact in
  0 < shr_m mrs /\ -149 <= e'.
Proof.
  intros Hm He. destruct m as [|q|q]; try lia.
  unfold shr_fexp, fexp, emin, shr. change (3 - 128 - 24) with (-149).
  cbn [Zdigits2 shr_record_of_loc].
  destruct (Z.max (Zpos (digits2_pos q) + e - 24) (-149) - e) as [|n|n] eqn:En;
    cbn [shr_m]; try (split; lia).
  destruct (iter_shr_spec n (Build_shr_record (Zpos q) false false)) as [H1 _];
    [cbn; lia |].
  cbn [shr_m] in H1. rewrite H1. split; [| lia].
  destruct (digits2_pos_bounds q) as [Hlo _].
  assert (Hn : Zpos (digits2_pos q) - 1 = Zpos n + 23) by lia.
  rewrite Hn, Z.pow_add_r in Hlo by lia. change (2 ^ 23) with 8388608 in Hlo.
  assert (0 < 2 ^ Zpos n) by (apply Z.pow_pos_nonneg; lia).
  assert (8388608 <= Zpos q / 2 ^ Zpos n) by (apply Z.div_le_lower_bound; lia).
  lia.
Qed.

Lemma binary_round_aux_nonzero sx m e :
  -149 <= e ->
  F32.is_nonzero (binary_round_aux 24 128 sx (Zpos m) e loc_Exact) = true.
Proof.
  intros He. unfold binary_round_aux.
  pose proof (shr_fexp_positive (Zpos m) e ltac:(lia) He) as H1.
  destruct (shr_fexp 24 128 (Zpos m) e loc_Exact) as [mrs e'].
  destruct H1 as [Hm' He'].
  destruct (round_nearest_even_bounds mrs) as [[Hlo _] _]. cbv zeta in Hlo.
  set (m2 := round_nearest_even (shr_m mrs) (loc_of_shr_record mrs)) in *.
  assert (Hm2p : 0 < m2) by lia.
  pose proof (shr_fexp_positive m2 e' Hm2p He') as H2.
  destruct (shr_fexp 24 128 m2 e' loc_Exact) as [mrs2 e2].
  destruct H2 as [Hm2 _].
  destruct (shr_m mrs2); try lia.
  destruct (e2 <=? 128 - 24); reflexivity.
Qed.

Lemma binary_round_nonzero sx mx ex :
  -149 <= ex -> F32.is_nonzero (binary_round 24 128 sx mx ex) = true.
Proof.
  intros He. unfold binary_round.
  set (fe := fexp 24 128 (Zpos (digits2_pos mx) + ex)).
  assert (Hfe : -149 <= fe).
  { unfold fe, fexp, emin. change (3 - 128 - 24) with (-149). lia. }
  destruct (Z.le_gt_cases ex fe) as [Hle | Hgt].
  - rewrite shl_align_id by exact Hle. apply binary_round_aux_nonzero, He.
  - pose proof (shl_align_snd mx ex fe ltac:(lia)) as Hs.
    destruct (shl_align mx ex fe) as [mz ez]. cbn [snd] in Hs. subst ez.
    apply binary_round_aux_nonzero, Hfe.
Qed.

Lemma binary_normalize_nonzero m e :
  m <> 0 -> -149 <= e -> F32.is_nonzero (binary_normalize 24 128 m e false) = true.
Proof.
  intros Hm He. destruct m as [|p|p]; [congruence | |];
    apply binary_round_nonzero, He.
Qed.

(** A valid binary32 value: at most 24 bits of mantissa, exactly 24 above
    the lowest exponent. *)
Lemma bounded_canonical m e :
  bounded 24 128 m e = true ->
  -149 <= e <= 104 /\ Zpos m < 2 ^ 24 /\ (-149 < e -> 2 ^ 23 <= Zpos m).
Proof.
  unfold bounded, canonical_mantissa, fexp, emin.
  change (3 - 128 - 24) with (-149). change (128 - 24) with 104.
  intros [Hc He]%andb_prop. apply Z.eqb_eq in Hc. apply Z.leb_le in He.
  destruct (digits2_pos_bounds m) as [Hlo Hhi].
  split; [lia |]. split.
  - assert (2 ^ Zpos (digits2_pos m) <= 2 ^ 24) by (apply Z.pow_le_mono_r; lia).
    lia.
  - intros Hgt. assert (Hd : Zpos (digits2_pos m) - 1 = 23) by lia.
    rewrite Hd in Hlo. exact Hlo.
Qed.

(** Two valid values whose aligned mantissas agree are the same. *)
Lemma aligned_unique m1 e1 m2 e2 :
  bounded 24 128 m1 e1 = true -> bounded 24 128 m2 e2 = true ->
  e1 <= e2 ->
  Zpos m1 = Zpos m2 * 2 ^ (e2 - e1) ->
  m1 = m2 /\ e1 = e2.
Proof.
  intros (He1 & Hm1 & _)%bounded_canonical (He2 & _ & Hn2)%bounded_canonical Hle Heq.
  destruct (Z.eq_dec e1 e2) as [-> | Hne].
  - rewrite Z.sub_diag in Heq. split; [lia | reflexivity].
  - exfalso. specialize (Hn2 ltac:(lia)).
    assert (2 ^ 1 <= 2 ^ (e2 - e1)) by (apply Z.pow_le_mono_r; lia).
    change (2 ^ 1) with 2 in *. change (2 ^ 23) with 8388608 in *.
    change (2 ^ 24) with 16777216 in *. nia.
Qed.

Lemma sub_nonzero x y :
  valid_binary 24 128 x = true -> valid_binary 24 128 y = true ->
  SFeqb x y = false ->
  match SFsub 24 128 x y with S754_zero _ => false | _ => true end = true.
Proof.
  destruct x as [s1|s1| |s1 m1 e1], y as [s2|s2| |s2 m2 e2];
    try reflexivity; try discriminate;
    try (destruct s1, s2; reflexivity).
  cbn [valid_binary]. intros Hb1 Hb2 Hne.
  assert (Hnz : F32.is_nonzero (SFsub 24 128 (S754_finite s1 m1 e1) (S754_finite s2 m2 e2)) = true).
  { unfold SFsub. set (ez := Z.min e1 e2).
    pose proof (bounded_canonical _ _ Hb1) as (He1 & _).
    pose proof (bounded_canonical _ _ Hb2) as (He2 & _).
    apply binary_normalize_nonzero; [| unfold ez; lia].
    rewrite !shl_align_fst by (unfold ez; lia).
    intros HM.
    assert (HU : 0 < 2 ^ (e1 - ez)) by (apply Z.pow_pos_nonneg; unfold ez; lia).
    assert (HV : 0 < 2 ^ (e2 - ez)) by (apply Z.pow_pos_nonneg; unfold ez; lia).
    assert (Hs : s1 = s2).
    { destruct s1, s2; cbn [cond_Zopp] in HM; try reflexivity; exfalso; nia. }
    subst s2.
    assert (Hmm : Zpos m1 * 2 ^ (e1 - ez) = Zpos m2 * 2 ^ (e2 - ez)).
    { destruct s1; cbn [cond_Zopp] in HM; lia. }
    assert (Hsame : m1 = m2 /\ e1 = e2).
    { destruct (Z.le_gt_cases e1 e2) as [Hle | Hgt].
      - apply aligned_unique; try assumption.
        replace ez with e1 in Hmm by (unfold ez; lia).
        rewrite Z.sub_diag in Hmm. lia.
      - enough (m2 = m1 /\ e2 = e1) by (split; symmetry; tauto).
        apply aligned_unique; try assumption; [lia |].
        replace ez with e2 in Hmm by (unfold ez; lia).
        rewrite Z.sub_diag in Hmm. lia. }
    destruct Hsame as [-> ->].
    unfold SFeqb, SFcompare in Hne.
    change (Pos.compare_cont Eq m2 m2) with (Pos.compare m2 m2) in Hne.
    rewrite Z.compare_refl, Pos.compare_refl in Hne. destruct s1; discriminate. }
  destruct (SFsub 24 128 _ _); try discriminate; reflexivity.
Qed.

(** ** Facts about the binary32 operations *)

(** [1 - x] does not overflow. *)
Lemma f32_sub_one_finite x :
  F32.valid x = true -> F32.is_finite x = true ->
  F32.is_finite (F32.sub (F32.of_Z 1) x) = true.
Proof. exact (sub_one_finite x). Qed.

(** Values that differ have a non-zero difference. *)
Lemma f32_sub_nonzero x y :
  F32.valid x = true -> F32.valid y = true -> F32.eqb x y = false ->
  F32.is_zero (F32.sub x y) = false.
Proof.
  intros Hx Hy Hne. pose proof (sub_nonzero x y Hx Hy Hne) as H.
  unfold F32.sub, F32.prec, F32.emax.
  destruct (SFsub 24 128 x y); try discriminate; reflexivity.
Qed.










(** [==] holds between identical non-NaN values and between zeros
    only. *)
Lemma f32_eqb_true x y :
  F32.eqb x y = true ->
  x = y \/ (F32.is_zero x = true /\ F32.is_zero y = true).
Proof.
  unfold F32.eqb, SFeqb.
  destruct x as [s1|s1| |s1 m1 e1], y as [s2|s2| |s2 m2 e2]; simpl;
    try discriminate; try (right; split; reflexivity);
    try (destruct s1, s2; (discriminate || (left; reflexivity))).
  change (Pos.compare_cont Eq m1 m2) with (Pos.compare m1 m2).
  destruct s1, s2; try discriminate;
    destruct (Z.compare_spec e1 e2); try discriminate;
    destruct (Pos.compare_spec m1 m2); try discriminate;
    intros _; left; congruence.
Qed.

Lemma f32_eqb_zeros x y :
  F32.is_zero x = true -> F32.is_zero y = true -> F32.eqb x y = true.
Proof. destruct x, y; try discriminate; reflexivity. Qed.

Lemma f32_eqb_sym_false x y : F32.eqb x y = false -> F32.eqb y x = false.
Proof.
  intros Hne. destruct (F32.eqb y x) eqn:E; [| reflexivity].
  pose proof E as E'. apply f32_eqb_true in E' as [-> | [H1 H2]].
  - congruence.
  - rewrite f32_eqb_zeros in Hne by assumption. discriminate.
Qed.





Lemma f32_mul_nan_l x : F32.mul S754_nan x = S754_nan.
Proof. destruct x; reflexivity. Qed.

Lemma f32_mul_nan_r x : F32.mul x S754_nan = S754_nan.
Proof. destruct x; reflexivity. Qed.






Lemma f32_sub_diag x : F32.is_finite x = true -> F32.is_zero (F32.sub x x) = true.
Proof.
  destruct x as [s|s| |s m e]; try discriminate; intros _.
  - destruct s; reflexivity.
  - unfold F32.sub, SFsub, shl_align.
    rewrite Z.min_id, Z.sub_diag. reflexivity.
Qed.

Lemma f32_sub_zeros x y :
  F32.is_zero x = true -> F32.is_zero y = true -> F32.is_zero (F32.sub x y) = true.
Proof. destruct x as [[]| | |], y as [[]| | |]; try discriminate; reflexivity. Qed.

Lemma f32_eqb_refl x : F32.is_finite x = true -> F32.eqb x x = true.
Proof.
  destruct x as [s|s| |s m e]; try discriminate; intros _; [reflexivity |].
  unfold F32.eqb, SFeqb, SFcompare.
  change (Pos.compare_cont Eq m m) with (Pos.compare m m).
  rewrite Z.compare_refl, Pos.compare_refl. destruct s; reflexivity.
Qed.

Lemma f32_mul_zero_l z x :
  F32.is_zero z = true -> F32.is_finite x = true -> F32.is_zero (F32.mul z x) = true.
Proof. destruct z, x; try discriminate; reflexivity. Qed.

Lemma f32_mul_zero_r x z :
  F32.is_zero z = true -> F32.is_finite x = true -> F32.is_zero (F32.mul x z) = true.
Proof. destruct z, x; try discriminate; reflexivity. Qed.

Lemma f32_div_zero_one z :
  F32.is_zero z = true ->
  F32.is_zero (F32.div z (F32.mul (F32.of_Z 1) (F32.of_Z 1))) = true.
Proof. destruct z; try discriminate; reflexivity. Qed.

Lemma f32_add_zero_r x z :
  F32.is_zero z = true -> F32.is_finite x = true ->
  F32.is_finite (F32.add x z) = true.
Proof. destruct z as [[]| | |], x as [[]| | |]; try discriminate; reflexivity. Qed.

Lemma f32_add_zero_eqb x z :
  F32.is_zero z = true -> F32.is_finite x = true ->
  F32.eqb (F32.add x z) x = true
  /\ (F32.is_zero x = false -> F32.add x z = x).
Proof.
  destruct z as [sz| | |]; try discriminate.
  destruct x as [sx|sx| |sx m e]; try discriminate; intros _ _.
  - split; [destruct sx, sz; reflexivity | discriminate].
  - split; [apply (f32_eqb_refl (S754_finite sx m e)) |]; reflexivity.
Qed.

Lemma f32_is_zero_finite z : F32.is_zero z = true -> F32.is_finite z = true.
Proof. destruct z; try discriminate; reflexivity. Qed.

Lemma f32_ltb_zero_l z : F32.is_zero z = true -> F32.ltb (F32.of_Z 0) z = false.
Proof. destruct z; try discriminate; reflexivity. Qed.

Lemma f32_ltb_zero_r z : F32.is_zero z = true -> F32.ltb z (F32.of_Z 0) = false.
Proof. destruct z; try discriminate; reflexivity. Qed.

(** Where [x == mid], the curve returns [mid], provided the linear
    coefficient [1 - e] is finite. *)
Lemma throttleFun_mid x e mid :
  F32.is_finite mid = true ->
  F32.is_finite e = true ->
  F32.is_finite (F32.sub (F32.of_Z 1) e) = true ->
  F32.eqb x mid = true ->
  F32.eqb (throttleFun x e mid) mid = true
  /\ (F32.is_zero mid = false -> throttleFun x e mid = mid).
Proof.
  intros Hm He Hl Hx.
  assert (Hd : F32.is_zero (F32.sub x mid) = true).
  { apply f32_eqb_true in Hx as [-> | [Hx Hy]];
      [apply f32_sub_diag | apply f32_sub_zeros]; assumption. }
  unfold throttleFun. rewrite f32_ltb_zero_l, f32_ltb_zero_r by exact Hd.
  apply f32_add_zero_eqb; [| exact Hm].
  apply f32_mul_zero_l; [exact Hd |].
  apply f32_add_zero_r; [| exact Hl].
  apply f32_div_zero_one, f32_mul_zero_r; [| exact He].
  apply f32_mul_zero_l; [exact Hd | apply f32_is_zero_finite, Hd].
Qed.

(** ** Exact operations

    Rounding returns a value that the format holds as it is; so
    [raw + 1] and the halving of it are exact where the raw throttle is
    [2 mid - 1]. *)

Lemma digits2_pos_unique m j :
  2 ^ (j - 1) <= Zpos m < 2 ^ j -> Zpos (digits2_pos m) = j.
Proof.
  intros [Hlo Hhi]. destruct (digits2_pos_bounds m) as [Dlo Dhi].
  assert (Hj : 0 <= j).
  { destruct (Z.le_gt_cases 0 j) as [H | H]; [exact H |].
    rewrite (Z.pow_neg_r 2 j) in Hhi by lia. lia. }
  destruct (Z.lt_trichotomy (Zpos (digits2_pos m)) j) as [H | [H | H]]; [| exact H |].
  - assert (2 ^ Zpos (digits2_pos m) <= 2 ^ (j - 1)) by (apply Z.pow_le_mono_r; lia). lia.
  - assert (2 ^ j <= 2 ^ (Zpos (digits2_pos m) - 1)) by (apply Z.pow_le_mono_r; lia). lia.
Qed.

Lemma digits2_pos_shift q m k :
  0 <= k -> Zpos q = Zpos m * 2 ^ k ->
  Zpos (digits2_pos q) = Zpos (digits2_pos m) + k.
Proof.
  intros Hk Hq. apply digits2_pos_unique. rewrite Hq.
  destruct (digits2_pos_bounds m) as [Dlo Dhi].
  replace (Zpos (digits2_pos m) + k - 1) with ((Zpos (digits2_pos m) - 1) + k) by lia.
  rewrite !Z.pow_add_r by lia.
  assert (0 < 2 ^ k) by (apply Z.pow_pos_nonneg; lia). nia.
Qed.

Lemma bounded_fexp m e :
  bounded 24 128 m e = true ->
  Z.max (Zpos (digits2_pos m) + e - 24) (-149) = e /\ e <= 104.
Proof.
  unfold bounded, canonical_mantissa, fexp, emin.
  change (3 - 128 - 24) with (-149). change (128 - 24) with 104.
  intros [Hc He]%andb_prop. apply Z.eqb_eq in Hc. apply Z.leb_le in He. lia.
Qed.

(** Rounding a value that the format holds returns its canonical
    form. *)
Lemma binary_round_aux_exact sx q e' m e :
  bounded 24 128 m e = true -> e' <= e ->
  Zpos q = Zpos m * 2 ^ (e - e') ->
  binary_round_aux 24 128 sx (Zpos q) e' loc_Exact = S754_finite sx m e.
Proof.
  intros Hb Hle Hq. destruct (bounded_fexp m e Hb) as [Hf He].
  pose proof (digits2_pos_shift q m (e - e') ltac:(lia) Hq) as Hd.
  unfold binary_round_aux, shr_fexp, fexp, emin, shr.
  change (3 - 128 - 24) with (-149). change (128 - 24) with 104.
  cbn [Zdigits2 shr_record_of_loc].
  replace (Z.max (Zpos (digits2_pos q) + e' - 24) (-149) - e') with (e - e') by lia.
  destruct (e - e') as [|n|n] eqn:En; try lia.
  - assert (e' = e) by lia. subst e'. rewrite Z.pow_0_r in Hq.
    assert (q = m) by lia. subst q.
    cbn [shr_m shr_r shr_s loc_of_shr_record round_nearest_even Zdigits2
         shr_record_of_loc].
    replace (Z.max (Zpos (digits2_pos m) + e - 24) (-149) - e) with 0 by lia.
    cbn [shr_m]. destruct (Z.leb_spec e 104); [reflexivity | lia].
  - set (R := SpecFloat.iter_pos shr_1 n (Build_shr_record (Zpos q) false false)).
    destruct (iter_shr_spec n (Build_shr_record (Zpos q) false false)) as [H1 H2];
      [cbn; lia |].
    fold R in H1, H2. cbn [shr_m] in H1, H2.
    assert (Hm : shr_m R = Zpos m).
    { rewrite H1, Hq. apply Z.div_mul. apply Z.pow_nonzero; lia. }
    assert (Hr : shr_r R = false).
    { rewrite H2, Hq.
      replace (Zpos n) with (1 + (Zpos n - 1)) at 1 by lia.
      rewrite Z.pow_add_r, Z.pow_1_r by lia.
      rewrite Z.mul_assoc, Z.div_mul by (apply Z.pow_nonzero; lia).
      rewrite Z.odd_mul. cbn. apply andb_false_r. }
    destruct (round_nearest_even_bounds R) as [_ Hx]. cbv zeta in Hx.
    rewrite (Hx Hr), Hm. cbn [Zdigits2 shr_record_of_loc].
    replace (Z.max (Zpos (digits2_pos m) + (e' + Zpos n) - 24) (-149) - (e' + Zpos n))
      with 0 by lia.
    cbn [shr_m]. replace (e' + Zpos n) with e by lia.
    destruct (Z.leb_spec e 104); [reflexivity | lia].
Qed.

Lemma pow2_cancel a b x y :
  0 <= y <= x -> a * 2 ^ x = b * 2 ^ y -> a * 2 ^ (x - y) = b.
Proof.
  intros Hxy H. replace x with ((x - y) + y) in H by lia.
  rewrite Z.pow_add_r, Z.mul_assoc in H by lia.
  apply Z.mul_reg_r in H; [exact H | apply Z.pow_nonzero; lia].
Qed.

Lemma binary_round_exact sx mx ex m e :
  bounded 24 128 m e = true -> -149 <= ex ->
  Zpos mx * 2 ^ (ex + 149) = Zpos m * 2 ^ (e + 149) ->
  binary_round 24 128 sx mx ex = S754_finite sx m e.
Proof.
  intros Hb Hex Hv. destruct (bounded_fexp m e Hb) as [Hf He].
  assert (Hemin : -149 <= e) by lia.
  unfold binary_round, fexp, emin. change (3 - 128 - 24) with (-149).
  destruct (Z.le_gt_cases ex e) as [Hle | Hgt].
  - assert (Hq : Zpos mx = Zpos m * 2 ^ (e - ex)).
    { symmetry. replace (e - ex) with ((e + 149) - (ex + 149)) by lia.
      apply pow2_cancel; [lia | symmetry; exact Hv]. }
    pose proof (digits2_pos_shift mx m (e - ex) ltac:(lia) Hq) as Hd.
    replace (Z.max (Zpos (digits2_pos mx) + ex - 24) (-149)) with e by lia.
    rewrite shl_align_id by exact Hle.
    apply binary_round_aux_exact; assumption.
  - assert (Hq : Zpos mx * 2 ^ (ex - e) = Zpos m).
    { replace (ex - e) with ((ex + 149) - (e + 149)) by lia.
      apply pow2_cancel; [lia | exact Hv]. }
    pose proof (digits2_pos_shift m mx (ex - e) ltac:(lia) (eq_sym Hq)) as Hd.
    replace (Z.max (Zpos (digits2_pos mx) + ex - 24) (-149)) with e by lia.
    pose proof (shl_align_fst mx ex e ltac:(lia)) as Hfst.
    pose proof (shl_align_snd mx ex e ltac:(lia)) as Hsnd.
    destruct (shl_align mx ex e) as [mz ez]. cbn [fst snd] in Hfst, Hsnd. subst ez.
    apply binary_round_aux_exact; [assumption | lia |].
    rewrite Z.sub_diag, Z.pow_0_r. lia.
Qed.

Lemma binary_normalize_exact M ez s m e :
  bounded 24 128 m e = true -> -149 <= ez ->
  M * 2 ^ (ez + 149) = cond_Zopp s (Zpos m * 2 ^ (e + 149)) ->
  binary_normalize 24 128 M ez false = S754_finite s m e.
Proof.
  intros Hb Hez Hv.
  assert (0 < 2 ^ (ez + 149)) by (apply Z.pow_pos_nonneg; lia).
  assert (0 < 2 ^ (e + 149)).
  { apply Z.pow_pos_nonneg; [lia |]. destruct (bounded_fexp m e Hb). lia. }
  destruct M as [|p|p], s; cbn [cond_Zopp binary_normalize] in *; try nia;
    apply binary_round_exact; try assumption; lia.
Qed.

Lemma scale_shift a e ez :
  -149 <= ez <= e -> a * 2 ^ (e - ez) * 2 ^ (ez + 149) = a * 2 ^ (e + 149).
Proof.
  intros H. rewrite <- Z.mul_assoc, <- Z.pow_add_r by lia.
  replace (e - ez + (ez + 149)) with (e + 149) by lia. reflexivity.
Qed.

(** [raw + 1], where the sum is a value of the format. *)
Lemma add_one_exact raw s m e :
  F32.valid raw = true -> F32.is_finite raw = true ->
  bounded 24 128 m e = true ->
  F32.scaled raw + 2 ^ 149 = cond_Zopp s (Zpos m * 2 ^ (e + 149)) ->
  F32.add raw (F32.of_Z 1) = S754_finite s m e.
Proof.
  intros Hv Hf Hb Hs.
  destruct raw as [sr|sr| |sr mr er]; try discriminate.
  - (* raw is a zero: the sum is 1 *)
    cbn [F32.scaled] in Hs.
    change (F32.add (S754_zero sr) (F32.of_Z 1)) with (binary_normalize 24 128 1 0 false).
    apply binary_normalize_exact; [assumption | lia |].
    rewrite <- Hs. reflexivity.
  - cbn [F32.scaled] in Hs. unfold F32.valid in Hv. cbn [valid_binary] in Hv.
    destruct (bounded_canonical _ _ Hv) as (Her & _).
    change (F32.of_Z 1) with (S754_finite false 8388608 (-23)).
    unfold F32.add, SFadd. set (ez := Z.min er (-23)).
    apply binary_normalize_exact; [assumption | unfold ez; lia |].
    rewrite !shl_align_fst by (unfold ez; lia).
    rewrite <- Hs. cbn [cond_Zopp].
    rewrite Z.mul_add_distr_r.
    rewrite (scale_shift 8388608 (-23) ez) by (unfold ez; lia).
    change (8388608 * 2 ^ (-23 + 149)) with (2 ^ 149). f_equal.
    destruct sr; cbn [cond_Zopp]; rewrite ?Z.mul_opp_l, scale_shift by (unfold ez; lia);
      reflexivity.
Qed.

Lemma add_one_zero raw :
  F32.valid raw = true -> F32.is_finite raw = true ->
  F32.scaled raw + 2 ^ 149 = 0 ->
  F32.add raw (F32.of_Z 1) = S754_zero false.
Proof.
  intros Hv Hf Hs.
  destruct raw as [sr|sr| |sr mr er]; try discriminate.
  cbn [F32.scaled] in Hs. unfold F32.valid in Hv. cbn [valid_binary] in Hv.
  destruct (bounded_canonical _ _ Hv) as (Her & _).
  change (F32.of_Z 1) with (S754_finite false 8388608 (-23)).
  unfold F32.add, SFadd. set (ez := Z.min er (-23)).
  rewrite !shl_align_fst by (unfold ez; lia).
  match goal with |- binary_normalize _ _ ?M _ _ = _ => assert (HM : M = 0) end.
  { assert (Hp : 0 < 2 ^ (ez + 149)) by (apply Z.pow_pos_nonneg; unfold ez; lia).
    apply (Z.mul_reg_r _ _ (2 ^ (ez + 149))); [lia |].
    rewrite Z.mul_0_l, <- Hs, Z.mul_add_distr_r. cbn [cond_Zopp].
    rewrite (scale_shift 8388608 (-23) ez) by (unfold ez; lia).
    change (8388608 * 2 ^ (-23 + 149)) with (2 ^ 149). f_equal.
    destruct sr; cbn [cond_Zopp]; rewrite ?Z.mul_opp_l, scale_shift by (unfold ez; lia);
      reflexivity. }
  rewrite HM. reflexivity.
Qed.

(** Two positive numbers with the same scaled value have the same
    number of digits above the scale. *)
Lemma digits_scaled a x b y :
  0 <= x -> 0 <= y ->
  Zpos a * 2 ^ x = Zpos b * 2 ^ y ->
  Zpos (digits2_pos a) + x = Zpos (digits2_pos b) + y.
Proof.
  intros Hx Hy H.
  destruct (digits2_pos_bounds a) as [Alo Ahi], (digits2_pos_bounds b) as [Blo Bhi].
  assert (Px : 0 < 2 ^ x) by (apply Z.pow_pos_nonneg; lia).
  assert (Py : 0 < 2 ^ y) by (apply Z.pow_pos_nonneg; lia).
  assert (A1 : 2 ^ (Zpos (digits2_pos a) - 1 + x) <= Zpos a * 2 ^ x)
    by (rewrite Z.pow_add_r by lia; nia).
  assert (A2 : Zpos a * 2 ^ x < 2 ^ (Zpos (digits2_pos a) + x))
    by (rewrite Z.pow_add_r by lia; nia).
  assert (B1 : 2 ^ (Zpos (digits2_pos b) - 1 + y) <= Zpos b * 2 ^ y)
    by (rewrite Z.pow_add_r by lia; nia).
  assert (B2 : Zpos b * 2 ^ y < 2 ^ (Zpos (digits2_pos b) + y))
    by (rewrite Z.pow_add_r by lia; nia).
  rewrite H in A1, A2.
  destruct (Z.lt_trichotomy (Zpos (digits2_pos a) + x) (Zpos (digits2_pos b) + y))
    as [L | [E | G]]; [exfalso | exact E | exfalso].
  - assert (2 ^ (Zpos (digits2_pos a) + x) <= 2 ^ (Zpos (digits2_pos b) - 1 + y))
      by (apply Z.pow_le_mono_r; lia). lia.
  - assert (2 ^ (Zpos (digits2_pos b) + y) <= 2 ^ (Zpos (digits2_pos a) - 1 + x))
      by (apply Z.pow_le_mono_r; lia). lia.
Qed.

(** Halving, where the half is a value of the format. *)
Lemma div_two_exact s mu eu m e :
  bounded 24 128 mu eu = true -> bounded 24 128 m e = true ->
  Zpos mu * 2 ^ (eu + 149) = 2 * (Zpos m * 2 ^ (e + 149)) ->
  F32.div (S754_finite s mu eu) (F32.of_Z 2) = S754_finite s m e.
Proof.
  intros Hbu Hb Hv.
  destruct (bounded_fexp _ _ Hbu) as [Hfu Heu], (bounded_fexp _ _ Hb) as [Hf He].
  assert (Hv' : Zpos mu * 2 ^ (eu + 149) = Zpos m * 2 ^ (e + 150)).
  { rewrite Hv. replace (e + 150) with (1 + (e + 149)) by lia.
    rewrite (Z.pow_add_r 2 1 (e + 149)), Z.pow_1_r by lia. lia. }
  pose proof (digits_scaled mu (eu + 149) m (e + 150) ltac:(lia) ltac:(lia) Hv') as Hd.
  change (F32.of_Z 2) with (S754_finite false 8388608 (-22)).
  unfold F32.div, SFdiv, SFdiv_core_binary, fexp, emin.
  change (3 - F32.emax - F32.prec) with (-149). change F32.prec with 24.
  cbn [Zdigits2]. change (Zpos (digits2_pos 8388608)) with 24.
  set (e' := Z.min (Z.max (Zpos (digits2_pos mu) + eu - (24 + -22) - 24) (-149)) (eu - -22)).
  assert (He' : -149 <= e' <= e) by (unfold e'; lia).
  assert (Hs : 0 < eu - -22 - e') by (unfold e'; lia).
  destruct (eu - -22 - e') as [|sh|sh] eqn:Esh; try lia.
  rewrite Z.shiftl_mul_pow2 by lia.
  assert (Hm' : Zpos mu * 2 ^ Zpos sh = Zpos m * 2 ^ (e - e') * 8388608).
  { apply (Z.mul_reg_r _ _ (2 ^ (e' + 149))); [apply Z.pow_nonzero; lia |].
    change 8388608 with (2 ^ 23).
    rewrite <- !Z.mul_assoc, <- !Z.pow_add_r by lia.
    replace (Zpos sh + (e' + 149)) with ((eu + 149) + 22) by lia.
    replace (e - e' + (23 + (e' + 149))) with ((e + 150) + 22) by lia.
    rewrite (Z.pow_add_r 2 (eu + 149) 22), (Z.pow_add_r 2 (e + 150) 22) by lia.
    rewrite !Z.mul_assoc, Hv'. reflexivity. }
  rewrite Hm'.
  destruct (Z.div_eucl (Zpos m * 2 ^ (e - e') * 8388608) 8388608) as [q r] eqn:Ed.
  assert (Hq : q = Zpos m * 2 ^ (e - e')).
  { change q with (fst (q, r)). rewrite <- Ed. apply (Z.div_mul _ 8388608). lia. }
  assert (Hr : r = 0).
  { change r with (snd (q, r)). rewrite <- Ed. apply (Z.mod_mul _ 8388608). lia. }
  subst r. change (new_location 8388608 0) with loc_Exact.
  rewrite xorb_false_r.
  assert (Hqp : 0 < q).
  { rewrite Hq. assert (0 < 2 ^ (e - e')) by (apply Z.pow_pos_nonneg; lia). lia. }
  destruct q as [|qp|qp]; try lia.
  apply binary_round_aux_exact; [assumption | lia | exact Hq].
Qed.

Lemma bounded_intro m e :
  Z.max (Zpos (digits2_pos m) + e - 24) (-149) = e -> e <= 104 ->
  bounded 24 128 m e = true.
Proof.
  intros Hc He. unfold bounded, canonical_mantissa, fexp, emin.
  change (3 - 128 - 24) with (-149). change (128 - 24) with 104.
  apply andb_true_intro. split; [apply Z.eqb_eq | apply Z.leb_le]; assumption.
Qed.

(** No finite value of the format exceeds [(2^24 - 1) * 2^104]. *)
Lemma scaled_bound x :
  F32.valid x = true -> Z.abs (F32.scaled x) <= (2 ^ 24 - 1) * 2 ^ 253.
Proof.
  destruct x as [s|s| |s m e]; cbn [F32.scaled].
  1-3: intros _; vm_compute; discriminate.
  unfold F32.valid. cbn [valid_binary]. intros (He & Hm & _)%bounded_canonical.
  assert (Hp : 2 ^ (e + 149) <= 2 ^ 253) by (apply Z.pow_le_mono_r; lia).
  assert (0 < 2 ^ (e + 149)) by (apply Z.pow_pos_nonneg; lia).
  assert (Zpos m * 2 ^ (e + 149) <= (2 ^ 24 - 1) * 2 ^ 253).
  { change (2 ^ 24) with 16777216 in *.
    transitivity (16777215 * 2 ^ (e + 149)); [nia | lia]. }
  destruct s; cbn [cond_Zopp]; lia.
Qed.

(** The raw value [2 mid - 1] rescales to [mid]: both steps of
    [(raw + 1) / 2] are exact. *)
Lemma midpoint_rescales raw mid :
  F32.valid raw = true -> F32.is_finite raw = true ->
  F32.valid mid = true -> F32.is_finite mid = true ->
  F32.scaled raw = 2 * F32.scaled mid - 2 ^ 149 ->
  F32.eqb (F32.div (F32.add raw (F32.of_Z 1)) (F32.of_Z 2)) mid = true.
Proof.
  intros Hvr Hfr Hvm Hfm Hs.
  destruct mid as [s|s| |s m e]; try discriminate.
  - cbn [F32.scaled] in Hs. rewrite add_one_zero by (trivial; lia). destruct s; reflexivity.
  - cbn [F32.scaled] in Hs. unfold F32.valid in Hvm. cbn [valid_binary] in Hvm.
    destruct (bounded_fexp _ _ Hvm) as [Hc He].
    destruct (bounded_canonical _ _ Hvm) as (Hemin & Hm & Hnorm).
    pose proof (scaled_bound raw Hvr) as Hrb.
    assert (Hdbl : F32.scaled raw + 2 ^ 149 = cond_Zopp s (2 * (Zpos m * 2 ^ (e + 149))))
      by (destruct s; cbn [cond_Zopp] in *; lia).
    assert (Hu : exists mu eu,
               bounded 24 128 mu eu = true /\
               Zpos mu * 2 ^ (eu + 149) = 2 * (Zpos m * 2 ^ (e + 149))).
    { destruct (Z.eq_dec e (-149)) as [-> | Hne].
      - destruct (Z.eq_dec (Zpos (digits2_pos m)) 24) as [Hd | Hd].
        + exists m, (-148). split; [apply bounded_intro; lia |].
          change (2 ^ (-148 + 149)) with 2. change (2 ^ (-149 + 149)) with 1. lia.
        + exists (m~0)%positive, (-149). split.
          * apply bounded_intro; [| lia]. cbn [digits2_pos].
            rewrite Pos2Z.inj_succ. lia.
          * change (2 ^ (-149 + 149)) with 1. lia.
      - exists m, (e + 1).
        assert (Hd : Zpos (digits2_pos m) = 24) by lia.
        assert (He1 : e <= 103).
        { destruct (Z.eq_dec e 104) as [-> | ]; [exfalso | lia].
          specialize (Hnorm ltac:(lia)).
          change (2 ^ (104 + 149)) with (2 ^ 253) in *.
          change (2 ^ 23) with 8388608 in *. change (2 ^ 24) with 16777216 in *.
          assert (0 < 2 ^ 253) by (apply Z.pow_pos_nonneg; lia).
          assert (2 ^ 149 < 2 ^ 253) by (apply Z.pow_lt_mono_r; lia).
          destruct s; cbn [cond_Zopp] in *; lia. }
        split; [apply bounded_intro; lia |].
        replace (e + 1 + 149) with (1 + (e + 149)) by lia.
        rewrite (Z.pow_add_r 2 1 (e + 149)), Z.pow_1_r by lia. lia. }
    destruct Hu as (mu & eu & Hbu & Hvu).
    rewrite (add_one_exact raw s mu eu Hvr Hfr Hbu) by (rewrite Hvu; exact Hdbl).
    rewrite (div_two_exact s mu eu m e Hbu Hvm Hvu).
    apply (f32_eqb_refl (S754_finite s m e)). reflexivity.
Qed.

(** ** Frame rules *)

Lemma preserves_ret {A B} (f : Receiver -> A) (b : B) : preserves f (ret b).
Proof. intros s. reflexivity. Qed.

Lemma preserves_gets {A B} (f : Receiver -> A) (g : Receiver -> B) :
  preserves f (gets g).
Proof. intros s. reflexivity. Qed.

Lemma exec_bind {A B} (c : M A) (k : A -> M B) s :
  exec (bind c k) s = exec (k (eval c s)) (exec c s).
Proof. unfold exec, eval, bind. destruct (c s); reflexivity. Qed.

Lemma eval_bind {A B} (c : M A) (k : A -> M B) s :
  eval (bind c k) s = eval (k (eval c s)) (exec c s).
Proof. unfold exec, eval, bind. destruct (c s); reflexivity. Qed.

Lemma preserves_bind {A B C} (f : Receiver -> A) (c : M B) (k : B -> M C) :
  preserves f c -> (forall b, preserves f (k b)) -> preserves f (bind c k).
Proof. intros Hc Hk s. rewrite exec_bind, Hk. apply Hc. Qed.

Lemma preserves_for {A L} (f : Receiver -> A) (body : nat -> L -> M L) idxs :
  (forall i l, preserves f (body i l)) ->
  forall l, preserves f (for_ idxs body l).
Proof.
  intros Hb. induction idxs as [|i rest IH]; intros l; simpl.
  - apply preserves_ret.
  - apply preserves_bind; [apply Hb | intros l'; apply IH].
Qed.

Lemma preserves_if {A B} (f : Receiver -> A) (b : bool) (c1 c2 : M B) :
  preserves f c1 -> preserves f c2 -> preserves f (if b then c1 else c2).
Proof. destruct b; auto. Qed.

(** Decomposes a frame goal along the structure of the computation. *)
Ltac frame :=
  repeat (lazy beta zeta;
          lazymatch goal with
          | |- preserves _ (ret _) => apply preserves_ret
          | |- preserves _ (gets _) => apply preserves_gets
          | |- preserves _ (bind _ _) => apply preserves_bind; [| intros ?]
          | |- preserves _ (for_ _ _ _) => apply preserves_for; intros ? ?
          | |- preserves _ (if _ then _ else _) => apply preserves_if
          end).

Lemma put_rawval_frame {A} (f : Receiver -> A) chan v :
  (forall l s, f (set_rawvals l s) = f s) -> preserves f (put_rawval chan v).
Proof. intros H s. apply H. Qed.

Lemma put_command_frame {A} (f : Receiver -> A) chan v :
  (forall l s, f (set_commands l s) = f s) -> preserves f (put_command chan v).
Proof. intros H s. apply H. Qed.

(** The reading block writes [rawvals] and [averageIndex] only. *)
Lemma read_channels_frame {A} (f : Receiver -> A) e :
  (forall l s, f (set_rawvals l s) = f s) ->
  (forall v s, f (set_averageIndex v s) = f s) ->
  preserves f (read_channels e).
Proof.
  intros Hr Hi. unfold read_channels, read_direct, read_averaged, rawval.
  destruct (useSerial e); frame;
    solve [ apply put_rawval_frame, Hr | intros s; apply Hi ].
Qed.

(** The stick loop only reads. *)
Lemma check_stick_frame i st s : exec (check_stick i st) s = s.
Proof. reflexivity. Qed.

Lemma stick_code_frame s : exec stick_code s = s.
Proof. reflexivity. Qed.

(** The shaping stage writes [commands] only. *)

Lemma computeExpo_frame {A} (f : Receiver -> A) :
  (forall l s, f (set_commands l s) = f s) -> preserves f computeExpo.
Proof.
  intros Hf.
  unfold computeExpo, makePositiveCommand, applyPitchRollFunction,
    adjustCommand, rawval, command.
  frame; apply put_command_frame, Hf.
Qed.

Lemma put_command_length chan v s :
  length (commands (exec (put_command chan v) s)) = length (commands s).
Proof. apply length_insert. Qed.

Lemma computeExpo_length : preserves (fun s => length (commands s)) computeExpo.
Proof.
  unfold computeExpo, makePositiveCommand, applyPitchRollFunction,
    adjustCommand, rawval, command.
  frame; intros s; apply put_command_length.
Qed.

(** ** The debounce counter *)

Lemma update_unfold e s :
  exec (update e) s =
  debounce (eval stick_code (exec (read_channels e) s)) (exec (read_channels e) s).
Proof.
  unfold update. rewrite exec_bind, exec_bind, stick_code_frame.
  generalize (eval stick_code (exec (read_channels e) s)) as st.
  generalize (exec (read_channels e) s) as s1. intros s1 st.
  unfold debounce. rewrite exec_bind. unfold gets at 1. unfold eval at 1, exec at 2.
  simpl fst; simpl snd. rewrite exec_bind.
  destruct (st =? sticks s1); [| reflexivity].
  rewrite exec_bind. unfold gets at 1. unfold eval at 1, exec at 2.
  simpl fst; simpl snd.
  destruct (commandDelay s1 <? 250); reflexivity.
Qed.

Lemma update_sticks e s :
  sticks (exec (update e) s) = eval stick_code (exec (read_channels e) s).
Proof. rewrite update_unfold. reflexivity. Qed.

Lemma update_rawvals e s :
  rawvals (exec (update e) s) = rawvals (exec (read_channels e) s).
Proof.
  rewrite update_unfold. unfold debounce.
  destruct (_ =? _); [destruct (_ <? _) |]; reflexivity.
Qed.

Lemma update_config e s : config (exec (update e) s) = config s.
Proof.
  rewrite update_unfold. unfold debounce.
  transitivity (config (exec (read_channels e) s)).
  - destruct (_ =? _); [destruct (_ <? _) |]; reflexivity.
  - apply read_channels_frame; reflexivity.
Qed.

(** The counter after one cycle, from the counter and the code before. *)
Lemma update_commandDelay e s :
  commandDelay (exec (update e) s) =
  if sticks (exec (update e) s) =? sticks s
  then if commandDelay s <? 250 then u8 (commandDelay s + 1) else commandDelay s
  else 0.
Proof.
  rewrite update_sticks, update_unfold. unfold debounce.
  assert (Hs : sticks (exec (read_channels e) s) = sticks s)
    by (apply read_channels_frame; reflexivity).
  assert (Hc : commandDelay (exec (read_channels e) s) = commandDelay s)
    by (apply read_channels_frame; reflexivity).
  rewrite Hs, Hc.
  destruct (_ =? _); [destruct (_ <? _) |]; simpl; congruence.
Qed.

Lemma exec_run_cons e es s : exec (run (e :: es)) s = exec (run es) (exec (update e) s).
Proof. simpl. apply exec_bind. Qed.

Lemma steady_cons e es s :
  steady (e :: es) s = true ->
  sticks (exec (update e) s) = sticks s /\ steady es (exec (update e) s) = true.
Proof. simpl. intros [H1 H2]%andb_prop. split; [lia | assumption]. Qed.

Lemma u8_small z : 0 <= z < 256 -> u8 z = z.
Proof. intros H. unfold u8. apply Z.mod_small. assumption. Qed.

Lemma i32_small z : -2147483648 <= z < 2147483648 -> i32 z = z.
Proof. intros H. unfold i32. rewrite Z.mod_small; lia. Qed.

(** A cycle that repeats the code counts up, saturating at 250. *)
Lemma steady_step e s :
  0 <= commandDelay s <= 250 ->
  sticks (exec (update e) s) = sticks s ->
  commandDelay (exec (update e) s) = Z.min (commandDelay s + 1) 250.
Proof.
  intros Hb Hs. rewrite update_commandDelay, Hs, Z.eqb_refl.
  destruct (Z.ltb_spec (commandDelay s) 250).
  - rewrite u8_small; lia.
  - lia.
Qed.

(** A cycle that changes the code restarts the count. *)
Lemma change_step e s :
  sticks (exec (update e) s) <> sticks s -> commandDelay (exec (update e) s) = 0.
Proof.
  intros Hs. rewrite update_commandDelay.
  destruct (Z.eqb_spec (sticks (exec (update e) s)) (sticks s)); congruence.
Qed.

Lemma run_steady_counter es : forall s,
  0 <= commandDelay s <= 250 ->
  steady es s = true ->
  commandDelay (exec (run es) s) = Z.min (commandDelay s + Z.of_nat (length es)) 250.
Proof.
  induction es as [|e es IH]; intros s Hb Hst.
  - simpl. unfold exec, ret. simpl. lia.
  - apply steady_cons in Hst as [Hs Hst].
    rewrite exec_run_cons, IH; trivial.
    + rewrite steady_step by assumption. simpl length. lia.
    + rewrite steady_step by assumption. lia.
Qed.

Lemma steady_sticks es : forall s,
  steady es s = true -> sticks (exec (run es) s) = sticks s.
Proof.
  induction es as [|e es IH]; intros s Hst; [reflexivity |].
  apply steady_cons in Hst as [Hs Hst].
  rewrite exec_run_cons, IH by assumption. exact Hs.
Qed.

Lemma changed_spec s : eval changed s = (commandDelay s =? 20).
Proof. reflexivity. Qed.

(** The counter never leaves [0,250]. *)
Lemma reachable_counter s : reachable s -> 0 <= commandDelay s <= 250.
Proof.
  induction 1 as [cfg s | e s Hr IH | s Hr IH].
  - simpl. lia.
  - rewrite update_commandDelay.
    destruct (_ =? _); [| lia].
    destruct (Z.ltb_spec (commandDelay s) 250); [rewrite u8_small |]; lia.
  - rewrite (computeExpo_frame commandDelay); [exact IH | reflexivity].
Qed.

Lemma reachable_run es : forall s, reachable s -> reachable (exec (run es) s).
Proof.
  induction es as [|e es IH]; intros s Hr; [exact Hr |].
  rewrite exec_run_cons. apply IH, reach_update, Hr.
Qed.

(** ** The stick-combination code *)

Lemma check_stick_eval i st s :
  eval (check_stick i st) s = pack (above_min s i) (below_max s i) (u8 (Z.shiftr st 2)).
Proof. reflexivity. Qed.

Lemma stick_code_unroll s :
  eval stick_code s =
  pack (above_min s 3) (below_max s 3) (u8 (Z.shiftr
    (pack (above_min s 2) (below_max s 2) (u8 (Z.shiftr
      (pack (above_min s 1) (below_max s 1) (u8 (Z.shiftr
        (pack (above_min s 0) (below_max s 0) (u8 (Z.shiftr 0 2)))
        2)))
      2)))
    2)).
Proof.
  unfold stick_code. cbn [seq for_].
  rewrite !eval_bind, !check_stick_frame, !check_stick_eval. reflexivity.
Qed.

(** The code is the four pairs in base 4, channel 0 in the lowest
    digit. *)
Lemma stick_code_eval s :
  eval stick_code s =
  pair_of s 0 + 4 * pair_of s 1 + 16 * pair_of s 2 + 64 * pair_of s 3.
Proof.
  rewrite stick_code_unroll. unfold pair_of.
  destruct (above_min s 0), (below_max s 0), (above_min s 1), (below_max s 1),
    (above_min s 2), (below_max s 2), (above_min s 3), (below_max s 3);
    reflexivity.
Qed.

Lemma update_above_min e s i :
  above_min (exec (update e) s) i = above_min (exec (read_channels e) s) i.
Proof.
  unfold above_min. rewrite update_rawvals, update_config.
  rewrite (read_channels_frame config); reflexivity.
Qed.

Lemma update_below_max e s i :
  below_max (exec (update e) s) i = below_max (exec (read_channels e) s) i.
Proof.
  unfold below_max. rewrite update_rawvals, update_config.
  rewrite (read_channels_frame config); reflexivity.
Qed.

Lemma update_pair_of e s i :
  pair_of (exec (update e) s) i = pair_of (exec (read_channels e) s) i.
Proof. unfold pair_of. rewrite update_above_min, update_below_max. reflexivity. Qed.

(** After [update()], [sticks] is the code of the values now in
    [rawvals]. *)
Lemma update_sticks_eval e s :
  let s' := exec (update e) s in
  sticks s' = pair_of s' 0 + 4 * pair_of s' 1 + 16 * pair_of s' 2 + 64 * pair_of s' 3.
Proof.
  cbv zeta. rewrite update_sticks, stick_code_eval, !update_pair_of. reflexivity.
Qed.

(** ** The moving average *)

(** One pass of the averaging loop: the reading goes into its slot and
    the channel receives the mean of the row. *)
Lemma read_averaged_run e chan a s :
  (chan < length (rawvals s))%nat ->
  read_averaged e chan a s =
  (put_slot a chan (Z.rem (averageIndex s) 4) (readChannel e chan),
   set_rawvals
     (<[chan := mean4 (put_slot a chan (Z.rem (averageIndex s) 4) (readChannel e chan)
                       !!! chan)]> (rawvals s)) s).
Proof.
  intros Hc. destruct s as [cd ai cfg rv cm st]. cbn [rawvals averageIndex] in *.
  unfold read_averaged, mean4.
  set (a1 := put_slot a chan (Z.rem ai 4) (readChannel e chan)).
  cbv [for_ seq bind ret gets modify rawval put_rawval set_rawvals
       rawvals averageIndex commandDelay config commands sticks].
  fold a1.
  rewrite !list_lookup_total_insert_eq by (rewrite ?length_insert; exact Hc).
  rewrite !list_insert_insert_eq. reflexivity.
Qed.

(** Rows of other channels are not touched. *)
Lemma put_slot_other a chan k v chan' :
  chan <> chan' -> put_slot a chan k v !!! chan' = a !!! chan'.
Proof.
  intros Hne. unfold put_slot. destruct (0 <=? k); [| reflexivity].
  apply list_lookup_total_insert_ne, Hne.
Qed.

Lemma put_slot_length a chan k v : length (put_slot a chan k v) = length a.
Proof. unfold put_slot. destruct (0 <=? k); [apply length_insert | reflexivity]. Qed.

Lemma put_slot_row a a' chan k v :
  length a' = length a -> a' !!! chan = a !!! chan ->
  put_slot a' chan k v !!! chan = put_slot a chan k v !!! chan.
Proof.
  intros Hl Hr. unfold put_slot. destruct (0 <=? k); [| exact Hr].
  destruct (Nat.lt_ge_cases chan (length a)) as [Hlt | Hge].
  - rewrite !list_lookup_total_insert_eq by lia. rewrite Hr. reflexivity.
  - rewrite !list_insert_ge by lia. exact Hr.
Qed.

(** In filtered mode every channel receives the mean of the row of the
    automatic array as the call found it, with the reading of this cycle
    in slot [averageIndex % 4]. *)
Lemma read_channels_averaged e s chan :
  useSerial e = false ->
  (5 <= length (rawvals s))%nat ->
  (chan < 5)%nat ->
  rawvals (exec (read_channels e) s) !!! chan =
  mean4 (put_slot (averageRaw e) chan (Z.rem (averageIndex s) 4) (readChannel e chan)
         !!! chan).
Proof.
  intros Hser Hlen Hch. unfold read_channels. rewrite Hser.
  destruct s as [cd ai cfg rv cm st]. cbn [rawvals averageIndex] in *.
  rewrite exec_bind. cbn [for_ seq].
  unfold exec, eval, bind.
  repeat (rewrite read_averaged_run by (cbn [set_rawvals rawvals]; rewrite ?length_insert; lia);
          cbn [set_rawvals rawvals averageIndex commandDelay config commands sticks fst snd]).
  cbn [ret gets modify set_averageIndex set_rawvals rawvals averageIndex
       commandDelay config commands sticks fst snd].
  assert (Hc : (chan = 0 \/ chan = 1 \/ chan = 2 \/ chan = 3 \/ chan = 4)%nat) by lia.
  destruct Hc as [-> | [-> | [-> | [-> | ->] ] ] ];
    rewrite ?list_lookup_total_insert_ne by lia;
    rewrite list_lookup_total_insert_eq by (rewrite ?length_insert; lia);
    f_equal; apply put_slot_row;
    rewrite ?put_slot_length, ?put_slot_other by lia; reflexivity.
Qed.

(** ** The shaped commands in closed form *)

(** Normalises a monadic computation on a receiver given by its fields,
    leaving the float operations folded and splitting on the float
    comparisons it meets. *)
Ltac run_symbolic :=
  cbv -[F32.add F32.sub F32.mul F32.div F32.opp F32.abs F32.ltb F32.of_Z
        F64.ltb F64.of_float F64.of_ratio rcFun throttleFun];
  repeat match goal with
         | |- context [if F32.ltb ?a ?b then _ else _] =>
             destruct (F32.ltb a b);
             cbv -[F32.add F32.sub F32.mul F32.div F32.opp F32.abs F32.ltb
                   F32.of_Z F64.ltb F64.of_float F64.of_ratio rcFun throttleFun]
         end.

Lemma computeExpo_commands s :
  length (commands s) = 4%nat ->
  commands (exec computeExpo s) =
  [ shaped_roll_pitch (config s) (rawvals s !!! DEMAND_ROLL);
    shaped_roll_pitch (config s) (rawvals s !!! DEMAND_PITCH);
    shaped_yaw (rawvals s !!! DEMAND_YAW);
    shaped_throttle (config s) (rawvals s !!! DEMAND_THROTTLE) ].
Proof.
  destruct s as [cd ai cfg rv cm st]. simpl.
  destruct cm as [|c0 [|c1 [|c2 [|c3 [|c4 cm]]]]]; try discriminate. intros _.
  run_symbolic; reflexivity.
Qed.
(** ** The auxiliary switch

    The thresholds are 0 and the [double] 0.4: the [float] nearest to 0.4
    is above it and reads HIGH. *)

Example aux_boundaries :
  aux_of (F32.of_ratio (-1) 10000) = AUX_LOW
  /\ aux_of (F32.of_Z 0) = AUX_MID
  /\ aux_of (F32.of_ratio 399999 1000000) = AUX_MID
  /\ aux_of (F32.of_ratio 4 10) = AUX_HIGH
  /\ aux_of (F32.of_Z 1) = AUX_HIGH.
Proof. vm_compute. repeat split. Qed.

(** * Part III: the properties of the specification *)

(** ** Stick bits (C1) *)

(** C1, as the code has it: after every [update()], for each of the four
    flight-demand channels, the upper bit of the channel's pair (the
    check marked MIN) is set if and only if the raw value is strictly
    greater than -1 + margin, and the lower bit (the check marked MAX) if
    and only if the raw value is strictly less than +1 - margin.  A set
    bit says that the stick is away from that extreme. *)
Theorem stick_bits (e : Env) (s : Receiver) (i : nat) (Hi : (i < 4)%nat) :
  let s' := exec (update e) s in
  Z.testbit (sticks s') (2 * Z.of_nat i + 1)
    = F32.ltb (F32.add (F32.of_Z (-1)) (margin (config s'))) (rawvals s' !!! i)
  /\ Z.testbit (sticks s') (2 * Z.of_nat i)
    = F32.ltb (rawvals s' !!! i) (F32.sub (F32.of_Z 1) (margin (config s'))).
Proof.
  cbv zeta. rewrite update_sticks_eval. unfold pair_of.
  fold (above_min (exec (update e) s) i) (below_max (exec (update e) s) i).
  assert (Hc : i = 0%nat \/ i = 1%nat \/ i = 2%nat \/ i = 3%nat) by lia.
  destruct Hc as [-> | [-> | [-> | ->]]];
    destruct (above_min _ 0), (below_max _ 0), (above_min _ 1), (below_max _ 1),
      (above_min _ 2), (below_max _ 2), (above_min _ 3), (below_max _ 3);
    split; reflexivity.
Qed.

Lemma stick_bits_witness :
  (0 < 4)%nat /\
  let s' := exec (update centred) booted in
  Z.testbit (sticks s') (2 * Z.of_nat 0 + 1)
    = F32.ltb (F32.add (F32.of_Z (-1)) (margin (config s'))) (rawvals s' !!! 0%nat)
  /\ Z.testbit (sticks s') (2 * Z.of_nat 0)
    = F32.ltb (rawvals s' !!! 0%nat) (F32.sub (F32.of_Z 1) (margin (config s'))).
Proof. split; [lia | apply (stick_bits centred booted 0); lia]. Defined.

(** C1 as stated fails: with the sticks centred (raw 0, margin 0.1) both
    bits of roll's pair are set, although 0 is neither below -1 + margin
    nor above +1 - margin. *)
Lemma stick_bits_near_extreme_counterexample :
  let s' := exec (update centred) booted in
  Z.testbit (sticks s') 1 = true
  /\ Z.testbit (sticks s') 0 = true
  /\ F32.ltb (rawvals s' !!! 0%nat) (F32.add (F32.of_Z (-1)) (margin (config s'))) = false
  /\ F32.ltb (F32.sub (F32.of_Z 1) (margin (config s'))) (rawvals s' !!! 0%nat) = false.
Proof. vm_compute. repeat split. Qed.

(** ** The moving average (C2) *)

(** C2 fails on the code: [averageRaw] is an automatic array of
    [update()], so a call sees the reading of this cycle in one slot and
    whatever the stack holds in the other three.  With a noisy receiver
    that delivers 1.0 on four consecutive calls, each entered with the
    array holding zeros, every channel of [rawvals] is 0.25 after the
    fourth call, not 1.0. *)
Theorem average_forgets_history :
  let zeros := replicate 5 (replicate 4 (F32.of_Z 0)) in
  let s := exec (run (replicate 4 (noisy (F32.of_Z 1) zeros))) booted in
  rawvals s = replicate 5 (F32.of_ratio 1 4)
  /\ F32.eqb (rawvals s !!! DEMAND_ROLL) (F32.of_Z 1) = false.
Proof. vm_compute. split; reflexivity. Qed.

(** ** Debounce timing (C3) *)

(** C3: [changed()] is true exactly when the counter is 20.  From a
    cycle that changed the code (counter 0), over cycles that repeat the
    code, [changed()] is true after the 20th of them and after no other,
    however long the code is held; and a cycle that changes the code
    sets the counter to 0 again. *)
Theorem debounce_timing (s : Receiver) (es : list Env) (e : Env)
    (H0 : commandDelay s = 0) (Hst : steady es s = true) :
  let s' := exec (run es) s in
  (eval changed s' = true <-> commandDelay s' = 20)
  /\ (eval changed s' = true <-> length es = 20%nat)
  /\ (sticks (exec (update e) s') <> sticks s' ->
      commandDelay (exec (update e) s') = 0).
Proof.
  cbv zeta. rewrite changed_spec, Z.eqb_eq.
  split; [reflexivity |]. split; [| apply change_step].
  rewrite run_steady_counter by (trivial; lia). lia.
Qed.

Lemma debounce_timing_witness :
  let s := exec (update centred) booted in
  let es := replicate 20 centred in
  commandDelay s = 0 /\ steady es s = true /\
  eval changed (exec (run es) s) = true.
Proof.
  cbv zeta.
  assert (H0 : commandDelay (exec (update centred) booted) = 0)
    by (vm_compute; reflexivity).
  assert (Hst : steady (replicate 20 centred) (exec (update centred) booted) = true)
    by (vm_compute; reflexivity).
  split; [exact H0 |]. split; [exact Hst |].
  apply (debounce_timing _ _ centred H0 Hst). reflexivity.
Defined.

(** ** The end-to-end scenario (C4) *)

(** C4, as the code has it: in the scenario the roll command is 0.2040
    to four decimals (it lies strictly between 0.20395 and 0.20405; the
    curve gives (1 + 0.5 (0.36 - 1)) 0.6 / 2 = 0.204), the pitch command
    is its negation, the yaw command is -0.15, the throttle command is
    exactly 0.5 and the auxiliary state is HIGH. *)
Theorem scenario_commands :
  let s := exec (update scenario_input ;; computeExpo) booted in
  F32.ltb (F32.of_ratio 20395 100000) (commands s !!! DEMAND_ROLL) = true
  /\ F32.ltb (commands s !!! DEMAND_ROLL) (F32.of_ratio 20405 100000) = true
  /\ commands s !!! DEMAND_PITCH = F32.opp (commands s !!! DEMAND_ROLL)
  /\ commands s !!! DEMAND_YAW = F32.opp (F32.of_ratio 15 100)
  /\ commands s !!! DEMAND_THROTTLE = F32.of_ratio 1 2
  /\ eval getAuxState s = AUX_HIGH.
Proof. vm_compute. repeat split. Qed.

(** C4 as stated fails: the roll command is not 0.2460 to four decimals,
    it is below 0.24595 (and the pitch command above -0.24595). *)
Lemma scenario_roll_counterexample :
  let s := exec (update scenario_input ;; computeExpo) booted in
  F32.ltb (F32.of_ratio 24595 100000) (commands s !!! DEMAND_ROLL) = false
  /\ F32.ltb (commands s !!! DEMAND_PITCH) (F32.of_ratio (-24595) 100000) = false.
Proof. vm_compute. split; reflexivity. Qed.

(** ** Order of the pairs (C5) *)

(** C5, as the code has it: the least-significant pair of the code is
    that of the first channel (roll); pitch and yaw follow toward the
    most-significant bits, and the most-significant pair is that of the
    last channel (throttle). *)
Theorem stick_pairs_order (e : Env) (s : Receiver) :
  let s' := exec (update e) s in
  Z.land (sticks s') 3 = pair_of s' DEMAND_ROLL
  /\ Z.land (Z.shiftr (sticks s') 2) 3 = pair_of s' DEMAND_PITCH
  /\ Z.land (Z.shiftr (sticks s') 4) 3 = pair_of s' DEMAND_YAW
  /\ Z.shiftr (sticks s') 6 = pair_of s' DEMAND_THROTTLE.
Proof.
  cbv zeta. rewrite update_sticks_eval. unfold pair_of.
  unfold DEMAND_ROLL, DEMAND_PITCH, DEMAND_YAW, DEMAND_THROTTLE.
  destruct (above_min _ 0), (below_max _ 0), (above_min _ 1), (below_max _ 1),
    (above_min _ 2), (below_max _ 2), (above_min _ 3), (below_max _ 3);
    repeat split; reflexivity.
Qed.

(** C5 as stated fails: moving only the throttle to its minimum changes
    the most-significant pair while roll is where it was, and moving only
    roll to its minimum changes roll's pair and leaves the
    most-significant pair alone. *)
Lemma stick_pairs_order_counterexample :
  let zero := F32.of_Z 0 in
  let low := F32.of_Z (-1) in
  let sA := exec (update centred) booted in
  let sB := exec (update (direct [zero; zero; zero; low; zero])) booted in
  let sC := exec (update (direct [low; zero; zero; zero; zero])) booted in
  rawvals sB !!! DEMAND_ROLL = rawvals sA !!! DEMAND_ROLL
  /\ Z.shiftr (sticks sB) 6 <> Z.shiftr (sticks sA) 6
  /\ pair_of sC DEMAND_ROLL <> pair_of sA DEMAND_ROLL
  /\ Z.shiftr (sticks sC) 6 = Z.shiftr (sticks sA) 6.
Proof. vm_compute. repeat split; discriminate. Qed.

(** ** Sign symmetry (C6) *)



(** ** Throttle midpoint pin (C7) *)

(** The pin on the rescaled value: where [(raw + 1) / 2 == throttleMid],
    the throttle command is [throttleMid]. *)
Lemma midpoint_pin_rescaled (s : Receiver) :
  length (commands s) = 4%nat ->
  F32.is_finite (throttleMid (config s)) = true ->
  F32.valid (throttleExpo (config s)) = true ->
  F32.is_finite (throttleExpo (config s)) = true ->
  F32.eqb
    (F32.div (F32.add (rawvals s !!! DEMAND_THROTTLE) (F32.of_Z 1)) (F32.of_Z 2))
    (throttleMid (config s)) = true ->
  let out := commands (exec computeExpo s) !!! DEMAND_THROTTLE in
  F32.eqb out (throttleMid (config s)) = true
  /\ (F32.is_zero (throttleMid (config s)) = false -> out = throttleMid (config s)).
Proof.
  intros Hw Hmid Hval Hexp Hraw.
  cbv zeta. rewrite computeExpo_commands by exact Hw.
  cbn [lookup_total list_lookup_total DEMAND_THROTTLE]. unfold shaped_throttle.
  apply throttleFun_mid; try assumption.
  apply f32_sub_one_finite; assumption.
Qed.

(** C7: for all finite values [throttleMid], [throttleExpo] and raw
    throttle of the binary32 format, if the raw throttle equals
    [2 throttleMid - 1] (as exact values; then the rescaled value
    [(raw + 1) / 2] is [throttleMid], the difference from the midpoint is
    zero and the curve takes the [y = 1] branch), [computeExpo()] leaves
    the throttle command equal to [throttleMid], whatever [throttleExpo]
    is: it compares equal, and it is the very same float unless
    [throttleMid] is a zero. *)
Theorem throttle_midpoint (s : Receiver)
    (Hw : length (commands s) = 4%nat)
    (Hrv : F32.valid (rawvals s !!! DEMAND_THROTTLE) = true)
    (Hrf : F32.is_finite (rawvals s !!! DEMAND_THROTTLE) = true)
    (Hmv : F32.valid (throttleMid (config s)) = true)
    (Hmf : F32.is_finite (throttleMid (config s)) = true)
    (Hev : F32.valid (throttleExpo (config s)) = true)
    (Hef : F32.is_finite (throttleExpo (config s)) = true)
    (Hraw : F32.scaled (rawvals s !!! DEMAND_THROTTLE)
            = 2 * F32.scaled (throttleMid (config s)) - 2 ^ 149) :
  let out := commands (exec computeExpo s) !!! DEMAND_THROTTLE in
  F32.eqb out (throttleMid (config s)) = true
  /\ (F32.is_zero (throttleMid (config s)) = false -> out = throttleMid (config s)).
Proof.
  apply midpoint_pin_rescaled; try assumption.
  apply midpoint_rescales; assumption.
Qed.

Lemma throttle_midpoint_witness :
  let s := exec (update scenario_input) booted in
  length (commands s) = 4%nat
  /\ F32.valid (rawvals s !!! DEMAND_THROTTLE) = true
  /\ F32.is_finite (rawvals s !!! DEMAND_THROTTLE) = true
  /\ F32.valid (throttleMid (config s)) = true
  /\ F32.is_finite (throttleMid (config s)) = true
  /\ F32.valid (throttleExpo (config s)) = true
  /\ F32.is_finite (throttleExpo (config s)) = true
  /\ F32.scaled (rawvals s !!! DEMAND_THROTTLE)
     = 2 * F32.scaled (throttleMid (config s)) - 2 ^ 149
  /\ commands (exec computeExpo s) !!! DEMAND_THROTTLE = F32.of_ratio 1 2.
Proof.
  cbv zeta. repeat (split; [vm_compute; reflexivity |]).
  apply (throttle_midpoint (exec (update scenario_input) booted));
    vm_compute; reflexivity.
Defined.

(** ** Debounce saturation (C8) *)

(** C8: in every state the receiver reaches, the counter is within
    [0,250].  Over cycles that repeat the code, a counter at 250 stays at
    250, a counter that has passed 20 never makes [changed()] true, and
    holding the code for more than 250 cycles from a change leaves the
    counter at 250 with [changed()] false. *)
Theorem debounce_saturation (s : Receiver) (es : list Env)
    (Hr : reachable s) (Hst : steady es s = true) :
  let s' := exec (run es) s in
  0 <= commandDelay s' <= 250
  /\ (commandDelay s = 250 -> commandDelay s' = 250)
  /\ (20 < commandDelay s -> eval changed s' = false)
  /\ (250 < Z.of_nat (length es) ->
      commandDelay s' = 250 /\ eval changed s' = false).
Proof.
  cbv zeta. pose proof (reachable_counter s Hr) as Hb.
  rewrite changed_spec, run_steady_counter by assumption.
  split; [lia |]. split; [lia |].
  split; [intros H | intros H; split; [lia |]]; apply Z.eqb_neq; lia.
Qed.

Lemma debounce_saturation_witness :
  let s := exec (update centred) booted in
  let es := replicate 300 centred in
  reachable s /\ steady es s = true /\
  commandDelay (exec (run es) s) = 250 /\ eval changed (exec (run es) s) = false.
Proof.
  cbv zeta.
  assert (Hr : reachable (exec (update centred) booted))
    by (apply reach_update, reach_init).
  assert (Hst : steady (replicate 300 centred) (exec (update centred) booted) = true)
    by (vm_compute; reflexivity).
  split; [exact Hr |]. split; [exact Hst |].
  apply (debounce_saturation _ _ Hr Hst). simpl. lia.
Defined.

(** ** Linear range scaling (C9)

    [scaleup] is compared with the exact value of its formula in
    Part VI, after the rounding-error analysis that the comparison
    rests on. *)

(** ** Frame of the shaping stage and the queries (C10) *)

(** C10: [computeExpo()] changes nothing but the entries of [commands]:
    [rawvals], [sticks], [commandDelay], [averageIndex] and the
    configuration are as before, and [commands] keeps its length.
    [changed()] and [getAuxState()] leave the whole receiver as it was,
    so calling them again yields the same value. *)
Theorem shaping_frame (s : Receiver) :
  exec computeExpo s = set_commands (commands (exec computeExpo s)) s
  /\ length (commands (exec computeExpo s)) = length (commands s)
  /\ exec changed s = s
  /\ exec getAuxState s = s
  /\ eval changed (exec changed s) = eval changed s
  /\ eval getAuxState (exec getAuxState s) = eval getAuxState s.
Proof.
  split; [| split; [apply computeExpo_length | repeat split]].
  pose proof (computeExpo_frame commandDelay (fun _ _ => eq_refl) s) as H1.
  pose proof (computeExpo_frame averageIndex (fun _ _ => eq_refl) s) as H2.
  pose proof (computeExpo_frame config (fun _ _ => eq_refl) s) as H3.
  pose proof (computeExpo_frame rawvals (fun _ _ => eq_refl) s) as H4.
  pose proof (computeExpo_frame sticks (fun _ _ => eq_refl) s) as H5.
  destruct (exec computeExpo s) as [cd ai cf rv cm st], s as [cd0 ai0 cf0 rv0 cm0 st0].
  simpl in *. unfold set_commands. simpl. congruence.
Qed.

(** * Part IV: lemmas for the further properties *)

(** ** Order, sign and unit of the binary32 operations *)

Lemma SFcompare_antisym x y :
  SFcompare y x = option_map CompOpp (SFcompare x y).
Proof.
  destruct x as [s1|s1| |s1 m1 e1], y as [s2|s2| |s2 m2 e2]; cbn;
    try reflexivity; try (destruct s1, s2; reflexivity);
    try (destruct s1; reflexivity); try (destruct s2; reflexivity).
  change (Pos.compare_cont Eq m1 m2) with (Pos.compare m1 m2).
  change (Pos.compare_cont Eq m2 m1) with (Pos.compare m2 m1).
  rewrite (Z.compare_antisym e1 e2), (Pos.compare_antisym m1 m2).
  destruct s1, s2; cbn; try reflexivity;
    destruct (e1 ?= e2); cbn; try reflexivity;
    destruct (m1 ?= m2)%positive; reflexivity.
Qed.

Lemma f32_ltb_asym x y : F32.ltb x y = true -> F32.ltb y x = false.
Proof.
  unfold F32.ltb, SFltb. rewrite (SFcompare_antisym x y).
  destruct (SFcompare x y) as [[]|]; cbn; congruence.
Qed.

Lemma f32_add_opp x y : F32.add x (F32.opp y) = F32.sub x y.
Proof.
  destruct x as [s1|s1| |s1 m1 e1], y as [s2|s2| |s2 m2 e2];
    try reflexivity; destruct s1, s2; reflexivity.
Qed.

(** The sign passes through rounding. *)
Lemma binary_round_aux_opp sx m e l :
  binary_round_aux 24 128 (negb sx) m e l = SFopp (binary_round_aux 24 128 sx m e l).
Proof.
  unfold binary_round_aux.
  destruct (shr_fexp 24 128 m e l) as [mrs e1].
  destruct (shr_fexp 24 128 _ e1 loc_Exact) as [mrs2 e2].
  destruct (shr_m mrs2); try reflexivity.
  destruct (e2 <=? 128 - 24); reflexivity.
Qed.

Lemma f32_div_opp x y :
  F32.is_finite y = true -> F32.div (F32.opp x) y = F32.opp (F32.div x y).
Proof.
  destruct x as [s1|s1| |s1 m1 e1], y as [s2|s2| |s2 m2 e2]; try discriminate;
    intros _; try reflexivity; try (destruct s1, s2; reflexivity).
  unfold F32.div, F32.opp, SFdiv. cbn [SFopp].
  destruct (SFdiv_core_binary F32.prec F32.emax (Zpos m1) e1 (Zpos m2) e2) as [[mz ez] lz].
  replace (xorb (negb s1) s2) with (negb (xorb s1 s2)) by (destruct s1, s2; reflexivity).
  apply binary_round_aux_opp.
Qed.

(** Multiplying by one returns the other factor. *)
Lemma f32_mul_one_l x : F32.valid x = true -> F32.mul (F32.of_Z 1) x = x.
Proof.
  destruct x as [s|s| |s m e]; try reflexivity.
  unfold F32.valid. cbn [valid_binary]. intros Hb.
  change (F32.of_Z 1) with (S754_finite false 8388608 (-23)).
  unfold F32.mul, SFmul. cbn [xorb].
  apply binary_round_aux_exact; [exact Hb | lia |].
  replace (e - (-23 + e)) with 23 by lia. cbn [Pos.mul]. lia.
Qed.

Lemma f32_mul_neg_one_r x :
  F32.valid x = true -> F32.mul x (F32.of_Z (-1)) = F32.opp x.
Proof.
  destruct x as [s|s| |s m e]; try reflexivity; try (destruct s; reflexivity).
  unfold F32.valid. cbn [valid_binary]. intros Hb.
  change (F32.of_Z (-1)) with (S754_finite true 8388608 (-23)).
  unfold F32.mul, SFmul, F32.opp. cbn [SFopp].
  replace (xorb s true) with (negb s) by (destruct s; reflexivity).
  apply binary_round_aux_exact; [exact Hb | lia |].
  replace (e - (e + -23)) with 23 by lia.
  rewrite Pos2Z.inj_mul. change (2 ^ 23) with 8388608. lia.
Qed.

(** ** The order between three values *)

(** The order of two finite values of the same sign. *)
Lemma SFcompare_finite s m1 e1 m2 e2 :
  SFcompare (S754_finite s m1 e1) (S754_finite s m2 e2) =
  Some (let c := match e1 ?= e2 with
                 | Eq => Zpos m1 ?= Zpos m2
                 | c => c
                 end in
        if s then CompOpp c else c).
Proof.
  unfold SFcompare.
  change (Pos.compare_cont Eq m1 m2) with (Zpos m1 ?= Zpos m2).
  destruct s, (e1 ?= e2); reflexivity.
Qed.

(** Of two values in order, every number is above the lower one or below
    the upper one. *)
Lemma f32_ltb_between a r c :
  F32.ltb a c = true -> r <> S754_nan ->
  F32.ltb a r = true \/ F32.ltb r c = true.
Proof.
  unfold F32.ltb, SFltb. intros Hac Hr.
  destruct a as [sa|sa| |sa ma ea], c as [sc|sc| |sc mc ec];
    try discriminate Hac;
    destruct r as [sr|sr| |sr mr er]; try congruence; clear Hr;
    destruct sa, sc; try discriminate Hac; destruct sr;
    rewrite ?SFcompare_finite in *; cbv zeta in *;
    cbn [SFcompare CompOpp] in *; auto;
    repeat match goal with
      | H : context [?x ?= ?y] |- _ =>
          destruct (Z.compare_spec x y); cbn [CompOpp] in H
      | |- context [?x ?= ?y] => destruct (Z.compare_spec x y); cbn [CompOpp]
      end; try discriminate; auto; exfalso; lia.
Qed.

(** ** The reading block and runs of cycles *)

Lemma read_channels_direct e s chan :
  useSerial e = true ->
  (5 <= length (rawvals s))%nat ->
  rawvals (exec (read_channels e) s) !!! chan =
  if (chan <? 5)%nat then readChannel e chan else rawvals s !!! chan.
Proof.
  intros Hser Hlen. unfold read_channels. rewrite Hser.
  destruct s as [cd ai cfg rv cm st]. cbn [rawvals] in *.
  cbv [for_ seq bind ret gets modify read_direct put_rawval set_rawvals exec snd
       rawvals averageIndex commandDelay config commands sticks].
  destruct (Nat.ltb_spec chan 5) as [Hlt | Hge].
  - assert (Hc : (chan = 0 \/ chan = 1 \/ chan = 2 \/ chan = 3 \/ chan = 4)%nat) by lia.
    destruct Hc as [-> | [-> | [-> | [-> | ->] ] ] ];
      rewrite ?list_lookup_total_insert_ne by lia;
      rewrite list_lookup_total_insert_eq by (rewrite ?length_insert; lia);
      reflexivity.
  - rewrite !list_lookup_total_insert_ne by lia. reflexivity.
Qed.

Lemma read_channels_length e :
  preserves (fun s => length (rawvals s)) (read_channels e).
Proof.
  unfold read_channels, read_direct, read_averaged, rawval.
  destruct (useSerial e); frame;
    solve [ intros s; apply length_insert | intros s; reflexivity ].
Qed.

Lemma read_channels_index e s :
  averageIndex (exec (read_channels e) s) =
  if useSerial e then averageIndex s else i32 (averageIndex s + 1).
Proof.
  unfold read_channels. destruct (useSerial e).
  - apply (preserves_for averageIndex). intros i l s'. reflexivity.
  - rewrite exec_bind, exec_bind. cbn [gets modify exec eval fst snd set_averageIndex averageIndex].
    f_equal.
Qed.

Lemma update_averageIndex e s :
  averageIndex (exec (update e) s) = averageIndex (exec (read_channels e) s).
Proof.
  rewrite update_unfold. unfold debounce.
  destruct (_ =? _); [destruct (_ <? _) |]; reflexivity.
Qed.

Lemma update_commands e s : commands (exec (update e) s) = commands s.
Proof.
  rewrite update_unfold. unfold debounce.
  transitivity (commands (exec (read_channels e) s)).
  - destruct (_ =? _); [destruct (_ <? _) |]; reflexivity.
  - apply read_channels_frame; reflexivity.
Qed.

Lemma update_length e s :
  length (rawvals (exec (update e) s)) = length (rawvals s).
Proof. rewrite update_rawvals. apply read_channels_length. Qed.

(** In direct mode the code after a cycle is a function of the readings
    and the margin. *)
Lemma update_direct_sticks e s1 s2 :
  useSerial e = true ->
  (5 <= length (rawvals s1))%nat -> (5 <= length (rawvals s2))%nat ->
  config s1 = config s2 ->
  sticks (exec (update e) s1) = sticks (exec (update e) s2).
Proof.
  intros Hser H1 H2 Hcfg.
  pose proof (update_sticks_eval e s1) as E1. pose proof (update_sticks_eval e s2) as E2.
  cbv zeta in E1, E2. rewrite E1, E2.
  assert (Hp : forall i, (i < 4)%nat ->
             pair_of (exec (update e) s1) i = pair_of (exec (update e) s2) i).
  { intros i Hi. unfold pair_of, above_min, below_max.
    rewrite !update_config, !update_rawvals, Hcfg.
    rewrite !read_channels_direct by assumption.
    destruct (Nat.ltb_spec i 5); [reflexivity | lia]. }
  rewrite !Hp by lia. reflexivity.
Qed.

Lemma run_direct_steady e n : forall s,
  useSerial e = true -> (5 <= length (rawvals s))%nat ->
  steady (replicate n e) (exec (update e) s) = true.
Proof.
  induction n as [|n IH]; intros s Hser Hlen; [reflexivity |].
  cbn [replicate steady]. apply andb_true_intro. split.
  - apply Z.eqb_eq. apply update_direct_sticks; trivial.
    + rewrite update_length. exact Hlen.
    + apply update_config.
  - apply IH; [exact Hser |]. rewrite update_length. exact Hlen.
Qed.

Lemma exec_run_app es1 : forall es2 s,
  exec (run (es1 ++ es2)) s = exec (run es2) (exec (run es1) s).
Proof.
  induction es1 as [|e es1 IH]; intros es2 s; [reflexivity |].
  change ((e :: es1) ++ es2) with (e :: (es1 ++ es2)).
  rewrite !exec_run_cons. apply IH.
Qed.

Lemma steady_app es1 : forall es2 s,
  steady (es1 ++ es2) s = steady es1 s && steady es2 (exec (run es1) s).
Proof.
  induction es1 as [|e es1 IH]; intros es2 s; [reflexivity |].
  change ((e :: es1) ++ es2) with (e :: (es1 ++ es2)).
  cbn [steady]. rewrite IH, exec_run_cons, andb_assoc. reflexivity.
Qed.

Lemma counter_range_step e s :
  0 <= commandDelay s <= 250 -> 0 <= commandDelay (exec (update e) s) <= 250.
Proof.
  intros Hb. rewrite update_commandDelay.
  destruct (_ =? _); [| lia].
  destruct (Z.ltb_spec (commandDelay s) 250); [rewrite u8_small |]; lia.
Qed.

(** The counter tells how long the code has been held: from a counter of
    0, the counter after a run is [min k 250] for some [k] such that the
    last [k] cycles of the run all repeated the code. *)
Lemma counter_history es : forall s,
  commandDelay s = 0 ->
  exists es1 es2,
    es = es1 ++ es2
    /\ steady es2 (exec (run es1) s) = true
    /\ commandDelay (exec (run es) s) = Z.min (Z.of_nat (length es2)) 250.
Proof.
  induction es as [|e es IH] using rev_ind; intros s H0.
  - exists [], []. repeat split. exact H0.
  - destruct (IH s H0) as (es1 & es2 & -> & Hst & Hc).
    rewrite exec_run_app, exec_run_cons. cbn [run]. 
    set (s' := exec (run (es1 ++ es2)) s) in *.
    change (exec (ret tt) (exec (update e) s')) with (exec (update e) s').
    destruct (Z.eq_dec (sticks (exec (update e) s')) (sticks s')) as [Heq | Hne].
    + exists es1, (es2 ++ [e]). split; [symmetry; apply app_assoc |]. split.
      * rewrite steady_app, Hst. cbn [steady andb].
        rewrite <- exec_run_app. fold s'. rewrite Heq, Z.eqb_refl. reflexivity.
      * rewrite steady_step by (trivial; lia).
        rewrite Hc, length_app. cbn [length]. lia.
    + exists (es1 ++ es2 ++ [e]), []. split; [rewrite app_nil_r, app_assoc; reflexivity |].
      split; [reflexivity |].
      rewrite change_step by exact Hne. reflexivity.
Qed.

Lemma read_channels_other e s chan :
  (5 <= chan)%nat ->
  rawvals (exec (read_channels e) s) !!! chan = rawvals s !!! chan.
Proof.
  intros Hch. revert s.
  change (preserves (fun s => rawvals s !!! chan) (read_channels e)).
  unfold read_channels, read_direct, read_averaged, rawval.
  cbn [for_ seq].
  destruct (useSerial e); frame;
    solve [ intros s; apply list_lookup_total_insert_ne; lia
          | intros s; reflexivity ].
Qed.

Lemma run_counter_le es : forall s,
  0 <= commandDelay s <= 250 ->
  commandDelay (exec (run es) s) <= commandDelay s + Z.of_nat (length es).
Proof.
  induction es as [|e es IH]; intros s Hb.
  - change (exec (run []) s) with s. cbn [length]. lia.
  - rewrite exec_run_cons. etransitivity; [apply IH, counter_range_step, Hb |].
    cbn [length]. rewrite update_commandDelay.
    destruct (_ =? _); [destruct (Z.ltb_spec (commandDelay s) 250); [rewrite u8_small |] |];
      lia.
Qed.

(** ** Readings in direct mode *)

Lemma update_direct_rawvals e s chan :
  useSerial e = true -> (5 <= length (rawvals s))%nat -> (chan < 5)%nat ->
  rawvals (exec (update e) s) !!! chan = readChannel e chan.
Proof.
  intros Hser Hlen Hch. rewrite update_rawvals, read_channels_direct by assumption.
  destruct (Nat.ltb_spec chan 5); [reflexivity | lia].
Qed.

(** ** Pairs of the stick code *)

Lemma pair_of_range s i : 0 <= pair_of s i <= 3.
Proof. unfold pair_of. destruct (above_min s i), (below_max s i); cbn; lia. Qed.

Lemma pair_of_full s i :
  pair_of s i = 3 <-> above_min s i = true /\ below_max s i = true.
Proof.
  unfold pair_of. destruct (above_min s i), (below_max s i); cbn;
    split; try lia; try tauto; intros [? ?]; discriminate.
Qed.

(** ** The curve at its ends and centre *)

Lemma computeExpo_exec s :
  length (commands s) = 4%nat ->
  exec computeExpo s =
  set_commands
    [ shaped_roll_pitch (config s) (rawvals s !!! DEMAND_ROLL);
      shaped_roll_pitch (config s) (rawvals s !!! DEMAND_PITCH);
      shaped_yaw (rawvals s !!! DEMAND_YAW);
      shaped_throttle (config s) (rawvals s !!! DEMAND_THROTTLE) ] s.
Proof.
  destruct s as [cd ai cfg rv cm st]. simpl.
  destruct cm as [|c0 [|c1 [|c2 [|c3 [|c4 cm]]]]]; try discriminate. intros _.
  run_symbolic; reflexivity.
Qed.

Lemma rcFun_one e r :
  F32.is_finite e = true -> F32.valid r = true ->
  rcFun (F32.of_Z 1) e r = r.
Proof.
  intros He Hr. unfold rcFun.
  change (F32.mul (F32.of_Z 1) (F32.of_Z 1)) with (F32.of_Z 1).
  change (F32.sub (F32.of_Z 1) (F32.of_Z 1)) with (S754_zero false).
  assert (Hz : F32.is_zero (F32.mul e (S754_zero false)) = true)
    by (apply f32_mul_zero_r; [reflexivity | exact He]).
  assert (H1 : F32.add (F32.of_Z 1) (F32.mul e (S754_zero false)) = F32.of_Z 1).
  { destruct (F32.mul e (S754_zero false)); try discriminate. reflexivity. }
  rewrite H1.
  change (F32.mul (F32.of_Z 1) (F32.of_Z 1)) with (F32.of_Z 1).
  apply f32_mul_one_l, Hr.
Qed.

Lemma rcFun_zero x e r :
  F32.is_zero x = true ->
  F32.valid e = true -> F32.is_finite e = true -> F32.is_finite r = true ->
  F32.is_zero (rcFun (F32.abs x) e r) = true.
Proof.
  intros Hx Hev Hef Hr. unfold rcFun.
  assert (Ha : F32.abs x = S754_zero false) by (destruct x; try discriminate; reflexivity).
  rewrite Ha.
  change (F32.sub (F32.mul (S754_zero false) (S754_zero false)) (F32.of_Z 1))
    with (F32.of_Z (-1)).
  rewrite f32_mul_neg_one_r by exact Hev.
  rewrite f32_add_opp.
  apply f32_mul_zero_l; [| exact Hr].
  apply f32_mul_zero_r; [reflexivity |].
  apply f32_sub_one_finite; assumption.
Qed.

Lemma restore_sign_zero r c :
  F32.is_zero c = true -> F32.is_zero (restore_sign r c) = true.
Proof. unfold restore_sign. destruct (F32.ltb _ _), c; try discriminate; reflexivity. Qed.

Lemma f32_div_zero_two z :
  F32.is_zero z = true -> F32.is_zero (F32.div z (F32.of_Z 2)) = true.
Proof. destruct z; try discriminate; reflexivity. Qed.

Lemma shaped_yaw_half r :
  F32.is_zero r = false ->
  shaped_yaw r = F32.opp (F32.div r (F32.of_Z 2)).
Proof.
  intros Hnz. unfold shaped_yaw, restore_sign. f_equal.
  destruct r as [s|s| |s m e]; try discriminate; try reflexivity.
  - destruct s; reflexivity.
  - destruct s.
    + change (F32.ltb (S754_finite true m e) (F32.of_Z 0)) with true. cbv iota.
      change (F32.abs (S754_finite true m e)) with (S754_finite false m e).
      rewrite <- f32_div_opp by reflexivity. reflexivity.
    + reflexivity.
Qed.

Lemma shaped_yaw_zero r :
  F32.is_zero r = true -> shaped_yaw r = S754_zero true.
Proof. destruct r as [[]| | |]; try discriminate; reflexivity. Qed.

Lemma rcFun_nan e r : rcFun S754_nan e r = S754_nan.
Proof.
  unfold rcFun. change (F32.mul S754_nan S754_nan) with S754_nan.
  change (F32.sub S754_nan (F32.of_Z 1)) with S754_nan.
  rewrite f32_mul_nan_r. change (F32.add (F32.of_Z 1) S754_nan) with S754_nan.
  rewrite !f32_mul_nan_l. reflexivity.
Qed.

Lemma throttleFun_nan e mid : throttleFun S754_nan e mid = S754_nan.
Proof.
  unfold throttleFun.
  assert (H : F32.sub S754_nan mid = S754_nan) by (destruct mid; reflexivity).
  rewrite H. rewrite f32_mul_nan_l. destruct mid; reflexivity.
Qed.

Lemma computeExpo_nan (s : Receiver) (ch : nat)
    (Hch : (ch < 4)%nat)
    (Hw : length (commands s) = 4%nat)
    (Hnan : rawvals s !!! ch = S754_nan :> float) :
  commands (exec computeExpo s) !!! ch = S754_nan :> float.
Proof.
  rewrite computeExpo_commands by exact Hw.
  assert (Hc : ch = 0%nat \/ ch = 1%nat \/ ch = 2%nat \/ ch = 3%nat) by lia.
  unfold DEMAND_ROLL, DEMAND_PITCH, DEMAND_YAW, DEMAND_THROTTLE.
  destruct Hc as [-> | [-> | [-> | ->] ] ].
  - change (shaped_roll_pitch (config s) (rawvals s !!! 0%nat) = S754_nan).
    rewrite Hnan. unfold shaped_roll_pitch. change (F32.abs S754_nan) with S754_nan.
    rewrite rcFun_nan. reflexivity.
  - change (shaped_roll_pitch (config s) (rawvals s !!! 1%nat) = S754_nan).
    rewrite Hnan. unfold shaped_roll_pitch. change (F32.abs S754_nan) with S754_nan.
    rewrite rcFun_nan. reflexivity.
  - change (shaped_yaw (rawvals s !!! 2%nat) = S754_nan).
    rewrite Hnan. reflexivity.
  - change (shaped_throttle (config s) (rawvals s !!! 3%nat) = S754_nan).
    rewrite Hnan. unfold shaped_throttle.
    change (F32.div (F32.add S754_nan (F32.of_Z 1)) (F32.of_Z 2)) with S754_nan.
    apply throttleFun_nan.
Qed.

(** ** Integers in binary32 and the quotient of [scaleup] *)

(** An integer of at most 24 bits is a binary32 value. *)
Lemma of_Z_exact p :
  Zpos p < 2 ^ 24 ->
  exists m k,
    0 <= k /\ Zpos m = Zpos p * 2 ^ k
    /\ forall s, binary_normalize 24 128 (cond_Zopp s (Zpos p)) 0 false
                 = S754_finite s m (- k).
Proof.
  intros Hp.
  pose proof (digits2_pos_bounds p) as [Hlo Hhi].
  assert (Hd : Zpos (digits2_pos p) <= 24) by (apply digits2_pos_le; lia).
  set (k := 24 - Zpos (digits2_pos p)).
  assert (Hk : 0 <= k) by (unfold k; lia).
  assert (Hpos : 0 < Zpos p * 2 ^ k) by (apply Z.mul_pos_pos; [lia | apply Z.pow_pos_nonneg; lia]).
  exists (Z.to_pos (Zpos p * 2 ^ k)), k.
  rewrite Z2Pos.id by exact Hpos.
  split; [exact Hk |]. split; [reflexivity |].
  intros s. apply binary_normalize_exact.
  - apply bounded_intro; [| lia].
    rewrite (digits2_pos_shift _ p k) by (rewrite ?Z2Pos.id; lia).
    unfold k. lia.
  - lia.
  - rewrite Z2Pos.id by exact Hpos.
    replace (0 + 149) with (k + (- k + 149)) by lia.
    rewrite Z.pow_add_r by (unfold k; lia).
    destruct s; cbn [cond_Zopp]; lia.
Qed.

Lemma trunc_scaled s m p k :
  0 <= k -> Zpos m = Zpos p * 2 ^ k ->
  F32.trunc (S754_finite s m (- k)) = Some (cond_Zopp s (Zpos p)).
Proof.
  intros Hk Hm. unfold F32.trunc. f_equal. f_equal.
  destruct k as [|q|q]; [| | lia].
  - change (- 0) with 0. cbv iota. rewrite Hm. change (2 ^ 0) with 1. lia.
  - change (- Zpos q) with (Zneg q). cbv iota. rewrite Hm.
    change (- Zneg q) with (Zpos q).
    apply Z.div_mul. apply Z.pow_nonzero; lia.
Qed.

(** Converting an integer of at most 24 bits to [float] and back gives
    the integer. *)
Lemma trunc_of_Z z : Z.abs z < 2 ^ 24 -> F32.trunc (F32.of_Z z) = Some z.
Proof.
  intros Hz. destruct z as [|p|p]; [reflexivity | |].
  - destruct (of_Z_exact p Hz) as (m & k & Hk & Hm & E).
    change (F32.of_Z (Zpos p))
      with (binary_normalize 24 128 (cond_Zopp false (Zpos p)) 0 false).
    rewrite (E false).
    apply (trunc_scaled false m p k Hk Hm).
  - destruct (of_Z_exact p Hz) as (m & k & Hk & Hm & E).
    change (F32.of_Z (Zneg p))
      with (binary_normalize 24 128 (cond_Zopp true (Zpos p)) 0 false).
    rewrite (E true).
    apply (trunc_scaled true m p k Hk Hm).
Qed.

Lemma of_Z_finite z : Z.abs z < 2 ^ 24 -> F32.is_finite (F32.of_Z z) = true.
Proof.
  intros Hz. apply binary_normalize_finite.
  change (2 ^ 24) with 16777216 in Hz. change (104 - 0) with 104.
  change (2 ^ 25) with 33554432. change (2 ^ 104) with 20282409603651670423947251286016.
  lia.
Qed.

Lemma to_int16_of_Z z : int16 z -> F32.to_int16 (F32.of_Z z) = Some z.
Proof.
  intros Hz. unfold int16 in Hz. unfold F32.to_int16.
  rewrite trunc_of_Z by (change (2 ^ 24) with 16777216; lia).
  destruct (Z.leb_spec (-32768) z); [| lia].
  destruct (Z.leb_spec z 32767); [| lia]. reflexivity.
Qed.

(** The difference of two finite values is a number. *)
Lemma f32_sub_finite_not_nan x y :
  F32.valid x = true -> F32.valid y = true ->
  F32.is_finite x = true -> F32.is_finite y = true ->
  F32.sub x y <> S754_nan.
Proof.
  intros Hx Hy Hfx Hfy.
  destruct x as [s1|s1| |s1 m1 e1]; try discriminate Hfx;
    destruct y as [s2|s2| |s2 m2 e2]; try discriminate Hfy.
  - destruct s1, s2; discriminate.
  - discriminate.
  - discriminate.
  - unfold F32.valid in Hx, Hy. cbn [valid_binary] in Hx, Hy.
    pose proof (bounded_canonical _ _ Hx) as (He1 & _).
    pose proof (bounded_canonical _ _ Hy) as (He2 & _).
    unfold F32.sub, SFsub, F32.prec, F32.emax.
    set (ez := Z.min e1 e2).
    set (M := _ - _).
    destruct (Z.eq_dec M 0) as [-> | Hne]; [discriminate |].
    pose proof (binary_normalize_nonzero M ez Hne ltac:(unfold ez; lia)) as H.
    intros E. rewrite E in H. discriminate.
Qed.

Lemma scaleup_span out_min out_max :
  int16 out_min -> int16 out_max ->
  F32.is_finite (F32.of_Z (i32 (out_max - out_min))) = true.
Proof.
  unfold int16. intros H1 H2. rewrite i32_small by lia.
  apply of_Z_finite. change (2 ^ 24) with 16777216. lia.
Qed.

Lemma f32_div_by_zero q d :
  F32.zero_or_nan d = true -> F32.is_finite (F32.div q d) = false.
Proof. destruct q, d; try discriminate; reflexivity. Qed.

Lemma f32_add_not_finite x y :
  F32.is_finite x = false -> F32.is_finite (F32.add x y) = false.
Proof.
  destruct x as [s1|s1| |s1 m1 e1], y as [s2|s2| |s2 m2 e2]; try discriminate;
    intros _; try reflexivity.
  destruct s1, s2; reflexivity.
Qed.

Lemma f32_eqb_sub_zn x y :
  F32.eqb x y = true -> F32.zero_or_nan (F32.sub y x) = true.
Proof.
  intros [-> | [Hx Hy] ]%f32_eqb_true.
  - destruct y as [s|s| |s m e]; try reflexivity.
    + destruct s; reflexivity.
    + destruct s; reflexivity.
    + pose proof (f32_sub_diag (S754_finite s m e) eq_refl) as H.
      destruct (F32.sub _ _); try discriminate; reflexivity.
  - pose proof (f32_sub_zeros y x Hy Hx) as H.
    destruct (F32.sub _ _); try discriminate; reflexivity.
Qed.

(** ** The mantissa after rounding *)

Lemma last_stage_bounded sx m2 fe s m e :
  0 <= m2 ->
  (let '(mrs, e') := shr_fexp 24 128 m2 fe loc_Exact in
   match shr_m mrs with
   | Z0 => S754_zero sx
   | Zpos m => if e' <=? 128 - 24 then S754_finite sx m e' else S754_infinity sx
   | Zneg _ => S754_nan
   end) = S754_finite s m e ->
  Zpos m < 2 ^ 24 /\ e <= 104.
Proof.
  intros Hm. unfold shr_fexp, fexp, emin, shr.
  change (3 - 128 - 24) with (-149). change (128 - 24) with 104.
  destruct m2 as [|q|q]; [| | lia]; cbn [Zdigits2 shr_record_of_loc].
  - destruct (Z.max (0 + fe - 24) (-149) - fe) as [|n|n] eqn:En; cbn [shr_m];
      try discriminate.
    destruct (iter_shr_spec n (Build_shr_record 0 false false)) as [H1 _];
      [cbn; lia |].
    cbn [shr_m] in H1. rewrite H1, Z.div_0_l by (apply Z.pow_nonzero; lia).
    discriminate.
  - pose proof (digits2_pos_bounds q) as [_ Hq].
    assert (Hsmall : Zpos (digits2_pos q) <= 24 -> Zpos q < 2 ^ 24).
    { intros Hd. eapply Z.lt_le_trans; [exact Hq |]. apply Z.pow_le_mono_r; lia. }
    destruct (Z.max (Zpos (digits2_pos q) + fe - 24) (-149) - fe) as [|n|n] eqn:En;
      cbn [shr_m].
    + destruct (Z.leb_spec fe 104); [| discriminate].
      intros E. injection E as <- <- <-. split; [apply Hsmall; lia | lia].
    + destruct (iter_shr_spec n (Build_shr_record (Zpos q) false false)) as [H1 _];
        [cbn; lia |].
      cbn [shr_m] in H1. rewrite H1.
      destruct (Zpos q / 2 ^ Zpos n) as [|r|r] eqn:Er; try discriminate.
      destruct (Z.leb_spec (fe + Zpos n) 104); [| discriminate].
      intros E. injection E as <- <- <-. split; [| lia].
      rewrite <- Er. apply Z.div_lt_upper_bound; [apply Z.pow_pos_nonneg; lia |].
      rewrite <- Z.pow_add_r by lia.
      eapply Z.lt_le_trans; [exact Hq |]. apply Z.pow_le_mono_r; lia.
    + destruct (Z.leb_spec fe 104); [| discriminate].
      intros E. injection E as <- <- <-. split; [apply Hsmall; lia | lia].
Qed.

Lemma first_stage_nonneg m e :
  let '(mrs, e') := shr_fexp 24 128 (Zpos m) e loc_Exact in
  0 <= round_nearest_even (shr_m mrs) (loc_of_shr_record mrs).
Proof.
  unfold shr_fexp, fexp, emin, shr. cbn [Zdigits2 shr_record_of_loc].
  destruct (Z.max _ _ - e) as [|n|n];
    cbn [shr_m shr_r shr_s loc_of_shr_record round_nearest_even]; try lia.
  set (R := SpecFloat.iter_pos shr_1 n (Build_shr_record (Zpos m) false false)).
  destruct (iter_shr_spec n (Build_shr_record (Zpos m) false false)) as [H1 _];
    [cbn; lia |].
  fold R in H1. cbn [shr_m] in H1.
  destruct (round_nearest_even_bounds R) as [ [Hlo _] _].
  assert (0 <= shr_m R) by (rewrite H1; apply Z.div_pos; lia).
  lia.
Qed.

Lemma binary_round_aux_bounded sx mz ez s m e :
  binary_round_aux 24 128 sx (Zpos mz) ez loc_Exact = S754_finite s m e ->
  Zpos m < 2 ^ 24 /\ e <= 104.
Proof.
  unfold binary_round_aux. pose proof (first_stage_nonneg mz ez) as H0.
  destruct (shr_fexp 24 128 (Zpos mz) ez loc_Exact) as [mrs e'].
  apply last_stage_bounded, H0.
Qed.

Lemma f32_mul_bounded x y s m e :
  F32.mul x y = S754_finite s m e -> Zpos m < 2 ^ 24 /\ e <= 104.
Proof.
  destruct x as [s1|s1| |s1 m1 e1], y as [s2|s2| |s2 m2 e2]; try discriminate.
  apply binary_round_aux_bounded.
Qed.

(** [y - 1] does not overflow. *)
Lemma sub_one_r_finite s m e :
  Zpos m < 2 ^ 24 -> e <= 104 ->
  F32.is_finite (F32.sub (S754_finite s m e) (F32.of_Z 1)) = true.
Proof.
  intros Hm He.
  change (F32.of_Z 1) with (S754_finite false 8388608 (-23)).
  unfold F32.sub, SFsub, F32.prec, F32.emax. set (ez := Z.min e (-23)).
  apply binary_normalize_finite.
  rewrite !shl_align_fst by (unfold ez; lia).
  assert (HU : 0 < 2 ^ (-23 - ez)) by (apply Z.pow_pos_nonneg; unfold ez; lia).
  assert (HV : 0 < 2 ^ (e - ez)) by (apply Z.pow_pos_nonneg; unfold ez; lia).
  assert (HW1 : 2 ^ (104 - ez) = 2 ^ 127 * 2 ^ (-23 - ez)).
  { rewrite <- Z.pow_add_r by (unfold ez; lia). f_equal. lia. }
  assert (HW2 : 2 ^ (104 - ez) = 2 ^ (104 - e) * 2 ^ (e - ez)).
  { rewrite <- Z.pow_add_r by (unfold ez; lia). f_equal. lia. }
  assert (HX : 0 < 2 ^ (104 - e)) by (apply Z.pow_pos_nonneg; lia).
  change (2 ^ 24) with 16777216 in Hm. change (2 ^ 25) with 33554432.
  set (U := 2 ^ (-23 - ez)) in *. set (V := 2 ^ (e - ez)) in *.
  set (W := 2 ^ (104 - ez)) in *.
  assert (HVW : V <= W) by (rewrite HW2; nia).
  assert (HmV : Zpos m * V <= 16777215 * V) by (apply Z.mul_le_mono_nonneg_r; lia).
  change (2 ^ 127) with 170141183460469231731687303715884105728 in HW1.
  assert (Habs : Z.abs (cond_Zopp s (Zpos m * V) - 8388608 * U) <= 8388608 * U + Zpos m * V).
  { destruct s; cbn [cond_Zopp]; lia. }
  cbn [cond_Zopp]. clear HW2 HX. clearbody U V W. lia.
Qed.

(** The square of a value of [-1,+1] does not overflow. *)
Lemma f32_square_finite x :
  F32.valid x = true -> F32.is_finite x = true ->
  Z.abs (F32.scaled x) <= 2 ^ 149 ->
  F32.is_finite (F32.mul x x) = true.
Proof.
  destruct x as [s|s| |s m e]; try discriminate; [reflexivity |].
  unfold F32.valid. cbn [valid_binary F32.scaled]. intros Hb _ Hs.
  pose proof (bounded_canonical _ _ Hb) as (He & Hm & _).
  assert (He0 : e <= 0).
  { destruct (Z.le_gt_cases e 0) as [H | H]; [exact H | exfalso].
    assert (2 ^ (149 + 1) <= 2 ^ (e + 149)) by (apply Z.pow_le_mono_r; lia).
    rewrite Z.pow_add_r, Z.pow_1_r in H0 by lia.
    assert (0 < 2 ^ 149) by (apply Z.pow_pos_nonneg; lia).
    destruct s; cbn [cond_Zopp] in Hs; nia. }
  unfold F32.mul, SFmul. apply binary_round_aux_finite.
  assert (2 ^ 104 <= 2 ^ (104 - (e + e))) by (apply Z.pow_le_mono_r; lia).
  change (2 ^ 24) with 16777216 in Hm. change (2 ^ 25) with 33554432.
  change (2 ^ 104) with 20282409603651670423947251286016 in *.
  rewrite Pos2Z.inj_mul. nia.
Qed.

Lemma f32_valid_abs x : F32.valid (F32.abs x) = F32.valid x.
Proof. destruct x; reflexivity. Qed.

Lemma f32_scaled_abs x : F32.scaled (F32.abs x) = Z.abs (F32.scaled x).
Proof.
  destruct x as [s|s| |s m e]; try reflexivity.
  assert (0 < 2 ^ (e + 149) \/ 2 ^ (e + 149) = 0).
  { destruct (Z.le_gt_cases 0 (e + 149)).
    - left. apply Z.pow_pos_nonneg; lia.
    - right. apply Z.pow_neg_r. lia. }
  cbn [F32.abs SFabs F32.scaled]. destruct s; cbn [cond_Zopp]; nia.
Qed.

(** With no expo the curve is the straight line [x * r]. *)
Lemma rcFun_linear x e r :
  F32.is_zero e = true ->
  F32.valid x = true -> F32.is_finite x = true ->
  Z.abs (F32.scaled x) <= 2 ^ 149 ->
  rcFun x e r = F32.mul x r.
Proof.
  intros He Hv Hf Hs. unfold rcFun.
  assert (Hq : F32.is_finite (F32.sub (F32.mul x x) (F32.of_Z 1)) = true).
  { pose proof (f32_square_finite x Hv Hf Hs) as Hsq.
    destruct (F32.mul x x) as [sq|sq| |sq mq eq] eqn:Eq; try discriminate.
    - destruct sq; reflexivity.
    - apply f32_mul_bounded in Eq as [Hm Hle]. apply sub_one_r_finite; assumption. }
  pose proof (f32_mul_zero_l e _ He Hq) as Hz.
  assert (H1 : F32.add (F32.of_Z 1) (F32.mul e (F32.sub (F32.mul x x) (F32.of_Z 1)))
               = F32.of_Z 1).
  { destruct (F32.mul e _); try discriminate. reflexivity. }
  rewrite H1, f32_mul_one_l by exact Hv. reflexivity.
Qed.

(** ** Readings that are not numbers *)

Lemma f32_ltb_nan_l x : F32.ltb S754_nan x = false.
Proof. destruct x; reflexivity. Qed.

Lemma f32_ltb_nan_r x : F32.ltb x S754_nan = false.
Proof. destruct x; reflexivity. Qed.

Lemma pair_of_nan s i : rawvals s !!! i = S754_nan :> float -> pair_of s i = 0.
Proof.
  intros H. unfold pair_of, above_min, below_max.
  rewrite H, f32_ltb_nan_l, f32_ltb_nan_r. reflexivity.
Qed.

(** The pair of channel [i] is the base-4 digit [i] of the code. *)
Lemma code_digit p0 p1 p2 p3 i :
  0 <= p0 <= 3 -> 0 <= p1 <= 3 -> 0 <= p2 <= 3 -> 0 <= p3 <= 3 ->
  (i < 4)%nat ->
  Z.land (Z.shiftr (p0 + 4 * p1 + 16 * p2 + 64 * p3) (2 * Z.of_nat i)) 3
  = nth i [p0; p1; p2; p3] 0.
Proof.
  intros H0 H1 H2 H3 Hi.
  assert (C0 : p0 = 0 \/ p0 = 1 \/ p0 = 2 \/ p0 = 3) by lia.
  assert (C1 : p1 = 0 \/ p1 = 1 \/ p1 = 2 \/ p1 = 3) by lia.
  assert (C2 : p2 = 0 \/ p2 = 1 \/ p2 = 2 \/ p2 = 3) by lia.
  assert (C3 : p3 = 0 \/ p3 = 1 \/ p3 = 2 \/ p3 = 3) by lia.
  destruct i as [|[|[|[|i]]]]; [| | | | lia];
    destruct C0 as [-> | [-> | [-> | ->] ] ], C1 as [-> | [-> | [-> | ->] ] ],
      C2 as [-> | [-> | [-> | ->] ] ], C3 as [-> | [-> | [-> | ->] ] ]; reflexivity.
Qed.

(** ** Promotion to binary64 *)

(** A mantissa of 53 bits at an exponent of binary64 is left as it is by
    rounding. *)
Lemma binary_round_aux_canonical64 sx m e :
  Zpos (digits2_pos m) = 53 -> -1074 <= e <= 971 ->
  binary_round_aux 53 1024 sx (Zpos m) e loc_Exact = S754_finite sx m e.
Proof.
  intros Hd He.
  unfold binary_round_aux, shr_fexp, fexp, emin, shr.
  change (3 - 1024 - 53) with (-1074). change (1024 - 53) with 971.
  cbn [Zdigits2 shr_record_of_loc].
  replace (Z.max (Zpos (digits2_pos m) + e - 53) (-1074) - e) with 0 by lia.
  cbn [shr_m shr_r shr_s loc_of_shr_record round_nearest_even Zdigits2
       shr_record_of_loc].
  replace (Z.max (Zpos (digits2_pos m) + e - 53) (-1074) - e) with 0 by lia.
  cbn [shr_m]. destruct (Z.leb_spec e 971); [reflexivity | lia].
Qed.

(** The promotion of a finite [float]: the same value with the mantissa
    extended to 53 bits. *)
Lemma of_float_finite s m e :
  bounded 24 128 m e = true ->
  exists m',
    let k := 53 - Zpos (digits2_pos m) in
    Zpos m' = Zpos m * 2 ^ k
    /\ F64.of_float (S754_finite s m e) = S754_finite s m' (e - k).
Proof.
  intros Hb. destruct (bounded_canonical m e Hb) as (He & Hm & _).
  assert (Hd : Zpos (digits2_pos m) <= 24) by (apply digits2_pos_le; lia).
  cbv zeta. set (k := 53 - Zpos (digits2_pos m)).
  assert (Hk : 29 <= k <= 52) by (unfold k; lia).
  unfold F64.of_float, F64.prec, F64.emax, binary_round, fexp, emin.
  change (3 - 1024 - 53) with (-1074).
  replace (Z.max (Zpos (digits2_pos m) + e - 53) (-1074)) with (e - k)
    by (unfold k; lia).
  pose proof (shl_align_fst m e (e - k) ltac:(lia)) as Hfst.
  pose proof (shl_align_snd m e (e - k) ltac:(lia)) as Hsnd.
  destruct (shl_align m e (e - k)) as [mz ez]. cbn [fst snd] in Hfst, Hsnd. subst ez.
  replace (e - (e - k)) with k in Hfst by lia.
  exists mz. split; [exact Hfst |].
  apply binary_round_aux_canonical64; [| lia].
  rewrite (digits2_pos_shift mz m k) by (trivial; lia). unfold k. lia.
Qed.

Lemma SFltb_positive m1 e1 m2 e2 :
  SFltb (S754_finite false m1 e1) (S754_finite false m2 e2) =
  match e1 ?= e2 with
  | Lt => true
  | Gt => false
  | Eq => match Zpos m1 ?= Zpos m2 with Lt => true | _ => false end
  end.
Proof. unfold SFltb, SFcompare. destruct (e1 ?= e2); reflexivity. Qed.

(** The [double] 0.4 lies between the [float] 0.4 and the [float] just
    below it, so both comparisons split the [float]s alike. *)
Lemma f64_ltb_04 x :
  F32.valid x = true ->
  F64.ltb (F64.of_float x) (F64.of_ratio 4 10) = F32.ltb x (F32.of_ratio 4 10)
  \/ F32.ltb x (F32.of_Z 0) = true.
Proof.
  intros Hv.
  assert (E64 : F64.of_ratio 4 10 = S754_finite false 7205759403792794 (-54))
    by (vm_compute; reflexivity).
  assert (E32 : F32.of_ratio 4 10 = S754_finite false 13421773 (-25))
    by (vm_compute; reflexivity).
  rewrite E64, E32. clear E64 E32.
  destruct x as [sx|sx| |sx m e].
  - left. destruct sx; reflexivity.
  - left. destruct sx; reflexivity.
  - left. reflexivity.
  - destruct sx; [right; reflexivity | left].
    unfold F32.valid in Hv. cbn [valid_binary] in Hv.
    destruct (of_float_finite false m e Hv) as (m' & Hm' & ->). cbv zeta in Hm'.
    destruct (bounded_canonical m e Hv) as (He & Hm & Hn).
    assert (Hd : Zpos (digits2_pos m) <= 24) by (apply digits2_pos_le; lia).
    unfold F64.ltb, F32.ltb. rewrite !SFltb_positive.
    set (d := Zpos (digits2_pos m)) in *.
    destruct (Z.eq_dec e (-149)) as [-> | Hne].
    + (* the lowest exponent: far below both thresholds *)
      destruct (Z.compare_spec (-149 - (53 - d)) (-54)) as [H | H | H]; [lia | | lia].
      reflexivity.
    + specialize (Hn ltac:(lia)).
      assert (Hd24 : d = 24).
      { apply digits2_pos_unique. change (2 ^ (24 - 1)) with (2 ^ 23). lia. }
      rewrite Hd24 in Hm'. clearbody d. subst d. change (53 - 24) with 29 in *.
      change (2 ^ 29) with 536870912 in Hm'.
      destruct (Z.compare_spec (e - 29) (-54)) as [H1 | H1 | H1],
        (Z.compare_spec e (-25)) as [H2 | H2 | H2]; try (exfalso; lia);
        try reflexivity.
      destruct (Z.compare_spec (Zpos m') 7205759403792794) as [H3 | H3 | H3],
        (Z.compare_spec (Zpos m) 13421773) as [H4 | H4 | H4]; try reflexivity;
        exfalso; lia.
Qed.

(** ** The sonar loop *)

Lemma sonar_step_inv sim handles k acc l out :
  Sonar.sonar sim handles k acc = Some (l, out) ->
  exists l0 out0 d,
    acc = Some (l0, out0) /\ l = l0 ++ [d] /\ 20 <= d <= 765.
Proof.
  unfold Sonar.sonar. destruct acc as [ [l0 out0] |]; [| discriminate].
  destruct (Sonar.simReadProximitySensor sim (handles !!! k)) as [detected distance].
  destruct (if 0 <? detected then _ else _) as [sonarDistance |]; [| discriminate].
  intros E. injection E as <- _.
  exists l0, out0, (Z.min (Z.max sonarDistance 20) 765).
  split; [reflexivity |]. split; [reflexivity | lia].
Qed.

(** * Part V: further properties of the code *)

(** X1: [update()] never writes the shaped commands or the configuration,
    keeps the size of [rawvals], and leaves every entry of [rawvals]
    beyond the five channels it reads as it was. *)
Theorem update_frame (e : Env) (s : Receiver) :
  let s' := exec (update e) s in
  commands s' = commands s
  /\ config s' = config s
  /\ length (rawvals s') = length (rawvals s)
  /\ (forall chan, (5 <= chan)%nat -> rawvals s' !!! chan = rawvals s !!! chan).
Proof.
  cbv zeta. split; [apply update_commands |]. split; [apply update_config |].
  split; [apply update_length |].
  intros chan Hch. rewrite update_rawvals. apply read_channels_other, Hch.
Qed.

(** X2: in direct (serial) mode [update()] stores the reading of each of
    the five channels in [rawvals] as delivered, with no filtering, and
    does not advance [averageIndex]. *)
Theorem direct_mode_passthrough (e : Env) (s : Receiver) (chan : nat)
    (Hser : useSerial e = true)
    (Hlen : (5 <= length (rawvals s))%nat)
    (Hch : (chan < 5)%nat) :
  let s' := exec (update e) s in
  rawvals s' !!! chan = readChannel e chan
  /\ averageIndex s' = averageIndex s.
Proof.
  cbv zeta. split.
  - rewrite update_rawvals, read_channels_direct by assumption.
    destruct (Nat.ltb_spec chan 5); [reflexivity | lia].
  - rewrite update_averageIndex, read_channels_index, Hser. reflexivity.
Qed.

Lemma direct_mode_passthrough_witness :
  useSerial scenario_input = true
  /\ (5 <= length (rawvals booted))%nat
  /\ (2 < 5)%nat
  /\ rawvals (exec (update scenario_input) booted) !!! 2%nat = F32.of_ratio 3 10.
Proof.
  split; [reflexivity |]. split; [vm_compute; lia |]. split; [lia |].
  apply (direct_mode_passthrough scenario_input booted 2);
    [reflexivity | vm_compute; lia | lia].
Defined.

(** X3: in filtered mode [update()] gives each of the five channels
    [((((0 + a0) + a1) + a2) + a3) / 4], where [a] is the channel's row
    of the automatic array as the call found it with the reading of this
    cycle stored in slot [averageIndex % 4]; then [averageIndex] is
    incremented (by one, short of [INT_MAX]). *)
Theorem filtered_mode_mean (e : Env) (s : Receiver) (chan : nat)
    (Hser : useSerial e = false)
    (Hlen : (5 <= length (rawvals s))%nat)
    (Hch : (chan < 5)%nat) :
  let s' := exec (update e) s in
  rawvals s' !!! chan
  = mean4 (put_slot (averageRaw e) chan (Z.rem (averageIndex s) 4) (readChannel e chan)
           !!! chan)
  /\ averageIndex s' = i32 (averageIndex s + 1)
  /\ (0 <= averageIndex s < 2147483647 -> averageIndex s' = averageIndex s + 1).
Proof.
  cbv zeta. split; [| split].
  - rewrite update_rawvals. apply read_channels_averaged; assumption.
  - rewrite update_averageIndex, read_channels_index, Hser. reflexivity.
  - intros Hi. rewrite update_averageIndex, read_channels_index, Hser.
    apply i32_small. lia.
Qed.

Lemma filtered_mode_mean_witness :
  let zeros := replicate 5 (replicate 4 (F32.of_Z 0)) in
  let e := noisy (F32.of_Z 1) zeros in
  useSerial e = false
  /\ (5 <= length (rawvals booted))%nat
  /\ (0 < 5)%nat
  /\ rawvals (exec (update e) booted) !!! 0%nat = F32.of_ratio 1 4
  /\ averageIndex (exec (update e) booted) = 1.
Proof.
  cbv zeta.
  split; [reflexivity |]. split; [vm_compute; lia |]. split; [lia |].
  destruct (filtered_mode_mean (noisy (F32.of_Z 1) (replicate 5 (replicate 4 (F32.of_Z 0))))
              booted 0) as (H1 & H2 & _);
    [reflexivity | vm_compute; lia | lia |].
  split; [rewrite H1 | rewrite H2]; vm_compute; reflexivity.
Defined.

(** X4: over any run of cycles, serial and filtered mixed,
    [averageIndex] grows by the number of filtered cycles: serial cycles
    do not move the slot into which the next filtered cycle writes. *)
Theorem average_index_counts (s : Receiver) (es : list Env)
    (H0 : 0 <= averageIndex s)
    (Hb : averageIndex s + Z.of_nat (length es) < 2 ^ 31) :
  averageIndex (exec (run es) s) = averageIndex s + filtered_cycles es.
Proof.
  revert s H0 Hb. induction es as [|e es IH]; intros s H0 Hb.
  - change (exec (run []) s) with s. cbn [filtered_cycles]. lia.
  - rewrite exec_run_cons. cbn [length filtered_cycles] in *.
    change (2 ^ 31) with 2147483648 in *.
    assert (E : averageIndex (exec (update e) s)
                = averageIndex s + (if useSerial e then 0 else 1)).
    { rewrite update_averageIndex, read_channels_index.
      destruct (useSerial e); [lia | apply i32_small; lia]. }
    rewrite IH; rewrite E; destruct (useSerial e); lia.
Qed.

Lemma average_index_counts_witness :
  let zeros := replicate 5 (replicate 4 (F32.of_Z 0)) in
  let es := [noisy (F32.of_Z 1) zeros; centred; noisy (F32.of_Z 1) zeros] in
  0 <= averageIndex booted
  /\ averageIndex booted + Z.of_nat (length es) < 2 ^ 31
  /\ averageIndex (exec (run es) booted) = 2.
Proof.
  cbv zeta. split; [vm_compute; discriminate |]. split; [vm_compute; reflexivity |].
  rewrite average_index_counts; [reflexivity | vm_compute; discriminate
                                | vm_compute; reflexivity].
Defined.

(** X5: in direct mode, when a cycle has changed the stick code and the
    receiver then delivers the very same readings for [n] more cycles,
    the code stays, the counter is [min n 250] and [changed()] is true
    after exactly the 20th of these cycles. *)
Theorem direct_hold_fires_at_20 (e : Env) (s : Receiver) (n : nat)
    (Hser : useSerial e = true)
    (Hlen : (5 <= length (rawvals s))%nat)
    (Hchg : sticks (exec (update e) s) <> sticks s) :
  let s' := exec (run (replicate n e)) (exec (update e) s) in
  sticks s' = sticks (exec (update e) s)
  /\ commandDelay s' = Z.min (Z.of_nat n) 250
  /\ (eval changed s' = true <-> n = 20%nat).
Proof.
  cbv zeta.
  pose proof (change_step e s Hchg) as H0.
  pose proof (run_direct_steady e n s Hser Hlen) as Hst.
  assert (Hb : 0 <= commandDelay (exec (update e) s) <= 250) by lia.
  pose proof (run_steady_counter _ _ Hb Hst) as Hc.
  rewrite H0, length_replicate in Hc.
  split; [apply steady_sticks, Hst |]. split; [exact Hc |].
  rewrite changed_spec, Z.eqb_eq, Hc. lia.
Qed.

Lemma direct_hold_fires_at_20_witness :
  useSerial centred = true
  /\ (5 <= length (rawvals booted))%nat
  /\ sticks (exec (update centred) booted) <> sticks booted
  /\ eval changed (exec (run (replicate 20 centred)) (exec (update centred) booted)) = true.
Proof.
  assert (H1 : useSerial centred = true) by reflexivity.
  assert (H2 : (5 <= length (rawvals booted))%nat) by (vm_compute; lia).
  assert (H3 : sticks (exec (update centred) booted) <> sticks booted)
    by (vm_compute; discriminate).
  split; [exact H1 |]. split; [exact H2 |]. split; [exact H3 |].
  apply (direct_hold_fires_at_20 centred booted 20 H1 H2 H3). reflexivity.
Defined.

(** X6: [changed()] is never true by accident: from a counter of 0 (after
    [init()] or a cycle that changed the code), whatever the receiver
    delivers, if [changed()] is true after a run of cycles then the run
    has at least 20 cycles and each of its last 20 repeated the stick
    code. *)
Theorem changed_means_held_20 (s : Receiver) (es : list Env)
    (H0 : commandDelay s = 0)
    (Hc : eval changed (exec (run es) s) = true) :
  exists es1 es2,
    es = es1 ++ es2 /\ length es2 = 20%nat
    /\ steady es2 (exec (run es1) s) = true.
Proof.
  destruct (counter_history es s H0) as (es1 & es2 & E & Hst & Hk).
  rewrite changed_spec, Z.eqb_eq, Hk in Hc.
  exists es1, es2. split; [exact E |]. split; [lia | exact Hst].
Qed.

Lemma changed_means_held_20_witness :
  let s := exec (update centred) booted in
  let es := replicate 20 centred in
  commandDelay s = 0
  /\ eval changed (exec (run es) s) = true
  /\ exists es1 es2,
       es = es1 ++ es2 /\ length es2 = 20%nat
       /\ steady es2 (exec (run es1) s) = true.
Proof.
  cbv zeta.
  assert (H0 : commandDelay (exec (update centred) booted) = 0)
    by (vm_compute; reflexivity).
  assert (Hc : eval changed
                 (exec (run (replicate 20 centred)) (exec (update centred) booted)) = true)
    by (vm_compute; reflexivity).
  split; [exact H0 |]. split; [exact Hc |].
  exact (changed_means_held_20 _ _ H0 Hc).
Defined.

(** X7: [init()] stores the configuration, clears the counter, the stick
    code and the slot index, and leaves [rawvals] and [commands] alone;
    after it [changed()] stays false through any 19 or fewer cycles,
    whatever the receiver delivers. *)
Theorem init_then_quiet (cfg : ReceiverConfig) (s : Receiver) (es : list Env)
    (Hn : (length es < 20)%nat) :
  let s0 := exec (init cfg) s in
  commandDelay s0 = 0 /\ sticks s0 = 0 /\ averageIndex s0 = 0
  /\ config s0 = cfg
  /\ rawvals s0 = rawvals s /\ commands s0 = commands s
  /\ eval changed (exec (run es) s0) = false.
Proof.
  cbv zeta. repeat (split; [reflexivity |]).
  rewrite changed_spec. apply Z.eqb_neq.
  pose proof (run_counter_le es (exec (init cfg) s)) as H.
  change (commandDelay (exec (init cfg) s)) with 0 in H.
  specialize (H ltac:(lia)). lia.
Qed.

Lemma init_then_quiet_witness :
  (length (replicate 19 centred) < 20)%nat
  /\ eval changed (exec (run (replicate 19 centred)) (exec (init scenario_config) blank))
     = false.
Proof.
  split; [vm_compute; lia |].
  apply (init_then_quiet scenario_config blank (replicate 19 centred)).
  vm_compute; lia.
Defined.

(** X8: after [update()] the stick code is a byte, and it is [0xFF]
    exactly when each of the four sticks is strictly inside both
    thresholds, above [-1 + margin] and below [+1 - margin]. *)
Theorem sticks_all_centred (e : Env) (s : Receiver) :
  let s' := exec (update e) s in
  0 <= sticks s' <= 255
  /\ (sticks s' = 255 <->
      forall i, (i < 4)%nat ->
        F32.ltb (F32.add (F32.of_Z (-1)) (margin (config s'))) (rawvals s' !!! i) = true
        /\ F32.ltb (rawvals s' !!! i) (F32.sub (F32.of_Z 1) (margin (config s'))) = true).
Proof.
  cbv zeta. pose proof (update_sticks_eval e s) as E. cbv zeta in E.
  set (s' := exec (update e) s) in *. rewrite E.
  pose proof (pair_of_range s' 0). pose proof (pair_of_range s' 1).
  pose proof (pair_of_range s' 2). pose proof (pair_of_range s' 3).
  split; [lia |]. split.
  - intros H255 i Hi. apply pair_of_full.
    assert (Hc : i = 0%nat \/ i = 1%nat \/ i = 2%nat \/ i = 3%nat) by lia.
    destruct Hc as [-> | [-> | [-> | ->] ] ]; lia.
  - intros Hall.
    pose proof (proj2 (pair_of_full s' 0) (Hall 0%nat ltac:(lia))).
    pose proof (proj2 (pair_of_full s' 1) (Hall 1%nat ltac:(lia))).
    pose proof (proj2 (pair_of_full s' 2) (Hall 2%nat ltac:(lia))).
    pose proof (proj2 (pair_of_full s' 3) (Hall 3%nat ltac:(lia))).
    lia.
Qed.

(** X9: [throttleIsDown()] and the stick code agree: when
    [throttleIsDown()] is true after an [update()], the top bit of the
    code (the throttle's MIN check) is clear, so the code is below
    [0x80]; and where the thresholds are in order
    ([-1 + margin < +1 - margin]) the throttle's pair is exactly 01. *)
Theorem throttle_down_clears_bit (e : Env) (s : Receiver)
    (Hd : eval throttleIsDown (exec (update e) s) = true) :
  let s' := exec (update e) s in
  Z.testbit (sticks s') 7 = false
  /\ sticks s' < 128
  /\ (F32.ltb (F32.add (F32.of_Z (-1)) (margin (config s)))
              (F32.sub (F32.of_Z 1) (margin (config s))) = true ->
      Z.shiftr (sticks s') 6 = 1).
Proof.
  cbv zeta. pose proof (update_sticks_eval e s) as E. cbv zeta in E.
  set (s' := exec (update e) s) in *.
  assert (Hd' : F32.ltb (rawvals s' !!! 3%nat)
                  (F32.add (F32.of_Z (-1)) (margin (config s'))) = true) by exact Hd.
  assert (Ha : above_min s' 3 = false).
  { unfold above_min. apply f32_ltb_asym. exact Hd'. }
  pose proof (pair_of_range s' 0). pose proof (pair_of_range s' 1).
  pose proof (pair_of_range s' 2).
  assert (H3 : 0 <= pair_of s' 3 <= 1).
  { unfold pair_of. rewrite Ha. destruct (below_max s' 3); cbn; lia. }
  assert (Hlt : 0 <= sticks s' < 128) by lia.
  split; [| split; [lia |] ].
  - apply Z.bits_above_log2; [lia |].
    destruct (Z.eq_dec (sticks s') 0) as [-> | Hne]; [cbn; lia |].
    apply Z.log2_lt_pow2; [lia |]. change (2 ^ 7) with 128. lia.
  - intros Hord.
    assert (Hcfg : config s' = config s) by apply update_config.
    rewrite <- Hcfg in Hord.
    assert (Hb : below_max s' 3 = true).
    { unfold below_max.
      match type of Hd' with
      | F32.ltb ?r ?lo = true =>
          destruct (f32_ltb_between lo r _ Hord) as [H' | H'];
            [ intros En; rewrite En in Hd'; destruct lo; discriminate Hd'
            | rewrite (f32_ltb_asym _ _ Hd') in H'; discriminate H'
            | exact H' ]
      end. }
    assert (Hp : pair_of s' 3 = 1) by (unfold pair_of; rewrite Ha, Hb; reflexivity).
    rewrite E, Hp, Z.shiftr_div_pow2 by lia. change (2 ^ 6) with 64.
    symmetry. apply (Z.div_unique _ 64 1 (pair_of s' 0 + 4 * pair_of s' 1 + 16 * pair_of s' 2));
      lia.
Qed.

Lemma throttle_down_clears_bit_witness :
  let e := direct [F32.of_Z 0; F32.of_Z 0; F32.of_Z 0; F32.of_Z (-1); F32.of_Z 0] in
  eval throttleIsDown (exec (update e) booted) = true
  /\ Z.testbit (sticks (exec (update e) booted)) 7 = false
  /\ sticks (exec (update e) booted) < 128
  /\ Z.shiftr (sticks (exec (update e) booted)) 6 = 1.
Proof.
  cbv zeta.
  assert (Hd : eval throttleIsDown
                 (exec (update (direct [F32.of_Z 0; F32.of_Z 0; F32.of_Z 0;
                                        F32.of_Z (-1); F32.of_Z 0])) booted) = true)
    by (vm_compute; reflexivity).
  split; [exact Hd |].
  destruct (throttle_down_clears_bit _ _ Hd) as (H1 & H2 & H3).
  split; [exact H1 |]. split; [exact H2 |]. apply H3. reflexivity.
Defined.

(** X10: no method filters a reading that is not a number.  After an
    [update()] that left NaN on a stick channel, both bits of the
    channel's pair in the code are clear and [computeExpo()] makes the
    channel's command NaN; with NaN on the throttle [throttleIsDown()]
    is false, and with NaN on the auxiliary channel [getAuxState()] is
    HIGH. *)
Theorem nan_reading (e : Env) (s : Receiver)
    (Hw : length (commands s) = 4%nat) :
  let s' := exec (update e) s in
  (forall ch, (ch < 4)%nat -> rawvals s' !!! ch = S754_nan :> float ->
     Z.land (Z.shiftr (sticks s') (2 * Z.of_nat ch)) 3 = 0
     /\ commands (exec computeExpo s') !!! ch = S754_nan :> float)
  /\ (rawvals s' !!! DEMAND_THROTTLE = S754_nan :> float ->
      eval throttleIsDown s' = false)
  /\ (rawvals s' !!! 4%nat = S754_nan :> float -> eval getAuxState s' = AUX_HIGH).
Proof.
  cbv zeta. pose proof (update_sticks_eval e s) as E. cbv zeta in E.
  set (s' := exec (update e) s) in *.
  assert (Hw' : length (commands s') = 4%nat)
    by (unfold s'; rewrite update_commands; exact Hw).
  split; [| split].
  - intros ch Hch Hnan. split.
    + rewrite E, code_digit by (apply pair_of_range || exact Hch).
      pose proof (pair_of_nan s' ch Hnan) as Hp.
      assert (Hc : ch = 0%nat \/ ch = 1%nat \/ ch = 2%nat \/ ch = 3%nat) by lia.
      destruct Hc as [-> | [-> | [-> | ->] ] ]; exact Hp.
    + apply computeExpo_nan; assumption.
  - intros Hnan. unfold throttleIsDown, rawval, eval, bind, gets, ret. cbn [fst snd].
    rewrite Hnan. apply f32_ltb_nan_l.
  - intros Hnan. unfold getAuxState, rawval, eval, bind, gets, ret. cbn [fst snd].
    rewrite Hnan. reflexivity.
Qed.

Lemma nan_reading_witness :
  let e := direct [F32.of_Z 0; F32.of_Z 0; F32.of_Z 0; S754_nan; S754_nan] in
  let s' := exec (update e) booted in
  length (commands booted) = 4%nat
  /\ Z.land (Z.shiftr (sticks s') 6) 3 = 0
  /\ commands (exec computeExpo s') !!! DEMAND_THROTTLE = S754_nan :> float
  /\ eval throttleIsDown s' = false
  /\ eval getAuxState s' = AUX_HIGH.
Proof.
  cbv zeta.
  assert (Hw : length (commands booted) = 4%nat) by reflexivity.
  split; [exact Hw |].
  destruct (nan_reading
              (direct [F32.of_Z 0; F32.of_Z 0; F32.of_Z 0; S754_nan; S754_nan])
              booted Hw) as (H1 & H2 & H3).
  destruct (H1 3%nat ltac:(lia) eq_refl) as [Ha Hb].
  split; [exact Ha |]. split; [exact Hb |].
  split; [exact (H2 eq_refl) | exact (H3 eq_refl)].
Defined.

(** X11: where the thresholds are in order ([-1 + margin < +1 - margin]),
    a number is never at both extremes: after [update()] both bits of a
    stick's pair are clear if and only if the reading of the stick is
    NaN. *)
Theorem pair_clear_iff_nan (e : Env) (s : Receiver) (i : nat)
    (Hi : (i < 4)%nat)
    (Hord : F32.ltb (F32.add (F32.of_Z (-1)) (margin (config s)))
                    (F32.sub (F32.of_Z 1) (margin (config s))) = true) :
  let s' := exec (update e) s in
  Z.land (Z.shiftr (sticks s') (2 * Z.of_nat i)) 3 = 0
  <-> rawvals s' !!! i = S754_nan :> float.
Proof.
  cbv zeta. pose proof (update_sticks_eval e s) as E. cbv zeta in E.
  set (s' := exec (update e) s) in *.
  rewrite E, code_digit by (apply pair_of_range || exact Hi).
  assert (Hp : nth i [pair_of s' 0; pair_of s' 1; pair_of s' 2; pair_of s' 3] 0
               = pair_of s' i).
  { assert (Hc : i = 0%nat \/ i = 1%nat \/ i = 2%nat \/ i = 3%nat) by lia.
    destruct Hc as [-> | [-> | [-> | ->] ] ]; reflexivity. }
  rewrite Hp. split; [| apply pair_of_nan].
  intros H0. unfold pair_of, above_min, below_max in H0.
  assert (Hcfg : config s' = config s) by apply update_config.
  rewrite Hcfg in H0.
  assert (Hnn : forall r : float, r <> S754_nan ->
            2 * Z.b2z (F32.ltb (F32.add (F32.of_Z (-1)) (margin (config s))) r)
            + Z.b2z (F32.ltb r (F32.sub (F32.of_Z 1) (margin (config s)))) = 0 ->
            False).
  { intros r Hr Hz.
    destruct (f32_ltb_between _ r _ Hord Hr) as [Ha | Hb].
    - rewrite Ha in Hz. destruct (F32.ltb r _); cbn [Z.b2z] in Hz; lia.
    - rewrite Hb in Hz. destruct (F32.ltb _ r); cbn [Z.b2z] in Hz; lia. }
  destruct (rawvals s' !!! i) as [sr|sr| |sr mr er]; [| | reflexivity |];
    exfalso; (eapply Hnn; [| exact H0]); discriminate.
Qed.

Lemma pair_clear_iff_nan_witness :
  let e := direct [S754_nan; F32.of_Z 0; F32.of_Z 0; F32.of_Z 0; F32.of_Z 0] in
  (0 < 4)%nat
  /\ F32.ltb (F32.add (F32.of_Z (-1)) (margin (config booted)))
             (F32.sub (F32.of_Z 1) (margin (config booted))) = true
  /\ (Z.land (Z.shiftr (sticks (exec (update e) booted)) (2 * Z.of_nat 0)) 3 = 0
      <-> rawvals (exec (update e) booted) !!! 0%nat = S754_nan :> float).
Proof.
  cbv zeta. split; [lia |]. split; [reflexivity |].
  apply (pair_clear_iff_nan
           (direct [S754_nan; F32.of_Z 0; F32.of_Z 0; F32.of_Z 0; F32.of_Z 0])
           booted 0); [lia | reflexivity].
Defined.

(** X12: [computeExpo()] recomputes all four commands from [rawvals] and
    the configuration alone: calling it twice is the same as calling it
    once, and two receivers with the same configuration and the same four
    stick values get the same commands, whatever their commands,
    counters and codes were. *)
Theorem computeExpo_idempotent (s : Receiver) (Hw : length (commands s) = 4%nat) :
  exec computeExpo (exec computeExpo s) = exec computeExpo s
  /\ (forall s2, length (commands s2) = 4%nat ->
        config s2 = config s ->
        (forall i, (i < 4)%nat -> rawvals s2 !!! i = rawvals s !!! i) ->
        commands (exec computeExpo s2) = commands (exec computeExpo s)).
Proof.
  split.
  - rewrite (computeExpo_exec s Hw).
    rewrite computeExpo_exec by reflexivity. reflexivity.
  - intros s2 Hw2 Hcfg Hraw.
    rewrite (computeExpo_exec s Hw), (computeExpo_exec s2 Hw2).
    cbn [set_commands commands]. rewrite Hcfg.
    unfold DEMAND_ROLL, DEMAND_PITCH, DEMAND_YAW, DEMAND_THROTTLE.
    rewrite !Hraw by lia. reflexivity.
Qed.

Lemma computeExpo_idempotent_witness :
  let s := exec (update scenario_input) booted in
  length (commands s) = 4%nat
  /\ exec computeExpo (exec computeExpo s) = exec computeExpo s.
Proof.
  cbv zeta. split; [reflexivity |].
  apply (computeExpo_idempotent (exec (update scenario_input) booted)). reflexivity.
Defined.

(** X13: in direct mode what a cycle puts out depends on the readings of
    that cycle and the configuration alone: after [update()] and
    [computeExpo()] the four commands are the shaped readings, and the
    commands, the stick code, the auxiliary state and [throttleIsDown()]
    are the same for any two receivers with the same configuration,
    whatever their earlier cycles were.  Only the debounce counter
    carries history. *)
Theorem direct_cycle_memoryless (e : Env) (s1 s2 : Receiver)
    (Hser : useSerial e = true)
    (Hl1 : (5 <= length (rawvals s1))%nat) (Hl2 : (5 <= length (rawvals s2))%nat)
    (Hw1 : length (commands s1) = 4%nat) (Hw2 : length (commands s2) = 4%nat)
    (Hcfg : config s1 = config s2) :
  let c1 := exec (update e ;; computeExpo) s1 in
  let c2 := exec (update e ;; computeExpo) s2 in
  commands c1 =
    [ shaped_roll_pitch (config s1) (readChannel e DEMAND_ROLL);
      shaped_roll_pitch (config s1) (readChannel e DEMAND_PITCH);
      shaped_yaw (readChannel e DEMAND_YAW);
      shaped_throttle (config s1) (readChannel e DEMAND_THROTTLE) ]
  /\ commands c1 = commands c2
  /\ sticks c1 = sticks c2
  /\ eval getAuxState c1 = eval getAuxState c2
  /\ eval throttleIsDown c1 = eval throttleIsDown c2.
Proof.
  cbv zeta. rewrite !exec_bind.
  set (u1 := exec (update e) s1). set (u2 := exec (update e) s2).
  assert (Hc : forall s, (5 <= length (rawvals s))%nat -> length (commands s) = 4%nat ->
            commands (exec computeExpo (exec (update e) s)) =
            [ shaped_roll_pitch (config s) (readChannel e DEMAND_ROLL);
              shaped_roll_pitch (config s) (readChannel e DEMAND_PITCH);
              shaped_yaw (readChannel e DEMAND_YAW);
              shaped_throttle (config s) (readChannel e DEMAND_THROTTLE) ]).
  { intros s Hl Hw.
    rewrite computeExpo_commands by (rewrite update_commands; exact Hw).
    rewrite update_config.
    unfold DEMAND_ROLL, DEMAND_PITCH, DEMAND_YAW, DEMAND_THROTTLE.
    rewrite !update_direct_rawvals by (trivial; lia). reflexivity. }
  assert (Hr : forall s chan, (5 <= length (rawvals s))%nat -> (chan < 5)%nat ->
            rawvals (exec computeExpo (exec (update e) s)) !!! chan = readChannel e chan).
  { intros s chan Hl Hch.
    rewrite (computeExpo_frame rawvals) by reflexivity.
    apply update_direct_rawvals; assumption. }
  assert (Hm : forall s, config (exec computeExpo (exec (update e) s)) = config s).
  { intros s. rewrite (computeExpo_frame config) by reflexivity. apply update_config. }
  split; [apply Hc; assumption |].
  split; [unfold u1, u2; rewrite !Hc, Hcfg by assumption; reflexivity |].
  split.
  { rewrite !(computeExpo_frame sticks) by reflexivity.
    apply update_direct_sticks; assumption. }
  split.
  - unfold getAuxState, rawval, eval, bind, gets, ret. cbn [fst snd].
    unfold u1, u2. rewrite !Hr by (trivial; lia). reflexivity.
  - unfold throttleIsDown, rawval, eval, bind, gets, ret. cbn [fst snd].
    unfold u1, u2, DEMAND_THROTTLE. rewrite !Hr, !Hm, Hcfg by (trivial; lia). reflexivity.
Qed.

Lemma direct_cycle_memoryless_witness :
  let s1 := booted in
  let s2 := exec (run (replicate 3 centred)) booted in
  useSerial scenario_input = true
  /\ (5 <= length (rawvals s1))%nat /\ (5 <= length (rawvals s2))%nat
  /\ length (commands s1) = 4%nat /\ length (commands s2) = 4%nat
  /\ config s1 = config s2
  /\ commands (exec (update scenario_input ;; computeExpo) s1)
     = commands (exec (update scenario_input ;; computeExpo) s2).
Proof.
  cbv zeta.
  split; [reflexivity |]. split; [vm_compute; lia |]. split; [vm_compute; lia |].
  split; [reflexivity |]. split; [reflexivity |]. split; [reflexivity |].
  apply (direct_cycle_memoryless scenario_input booted
           (exec (run (replicate 3 centred)) booted));
    [reflexivity | vm_compute; lia | vm_compute; lia | reflexivity | reflexivity
    | reflexivity].
Defined.

(** X14: at full deflection the expo does not matter: with a raw roll or
    pitch of exactly +1 the command is [pitchRollRate / 2], and with -1
    it is the negation, for every finite [pitchRollExpo]. *)
Theorem full_deflection_half_rate (s : Receiver) (ch : nat)
    (Hch : ch = DEMAND_ROLL \/ ch = DEMAND_PITCH)
    (Hw : length (commands s) = 4%nat)
    (He : F32.is_finite (pitchRollExpo (config s)) = true)
    (Hr : F32.valid (pitchRollRate (config s)) = true) :
  (rawvals s !!! ch = F32.of_Z 1 ->
   commands (exec computeExpo s) !!! ch
   = F32.div (pitchRollRate (config s)) (F32.of_Z 2))
  /\ (rawvals s !!! ch = F32.of_Z (-1) ->
      commands (exec computeExpo s) !!! ch
      = F32.opp (F32.div (pitchRollRate (config s)) (F32.of_Z 2))).
Proof.
  rewrite computeExpo_commands by exact Hw.
  assert (Hs : forall r, rawvals s !!! ch = r ->
     [ shaped_roll_pitch (config s) (rawvals s !!! DEMAND_ROLL);
       shaped_roll_pitch (config s) (rawvals s !!! DEMAND_PITCH);
       shaped_yaw (rawvals s !!! DEMAND_YAW);
       shaped_throttle (config s) (rawvals s !!! DEMAND_THROTTLE) ] !!! ch
     = shaped_roll_pitch (config s) r).
  { intros r <-. destruct Hch as [-> | ->]; reflexivity. }
  split; intros Hraw; rewrite (Hs _ Hraw); unfold shaped_roll_pitch, restore_sign.
  - change (F32.abs (F32.of_Z 1)) with (F32.of_Z 1).
    rewrite rcFun_one by assumption. reflexivity.
  - change (F32.abs (F32.of_Z (-1))) with (F32.of_Z 1).
    rewrite rcFun_one by assumption. reflexivity.
Qed.

Lemma full_deflection_half_rate_witness :
  let s := exec (update (direct [F32.of_Z 1; F32.of_Z (-1); F32.of_Z 0;
                                 F32.of_Z 0; F32.of_Z 0])) booted in
  (DEMAND_ROLL = DEMAND_ROLL \/ DEMAND_ROLL = DEMAND_PITCH)
  /\ length (commands s) = 4%nat
  /\ F32.is_finite (pitchRollExpo (config s)) = true
  /\ F32.valid (pitchRollRate (config s)) = true
  /\ rawvals s !!! DEMAND_ROLL = F32.of_Z 1
  /\ commands (exec computeExpo s) !!! DEMAND_ROLL = F32.of_ratio 1 2.
Proof.
  cbv zeta.
  split; [left; reflexivity |]. split; [reflexivity |].
  split; [reflexivity |]. split; [reflexivity |]. split; [reflexivity |].
  destruct (full_deflection_half_rate
              (exec (update (direct [F32.of_Z 1; F32.of_Z (-1); F32.of_Z 0;
                                     F32.of_Z 0; F32.of_Z 0])) booted) DEMAND_ROLL)
    as [H _]; [left; reflexivity | reflexivity | reflexivity | reflexivity |].
  rewrite H by reflexivity. vm_compute. reflexivity.
Defined.

(** X15: a centred stick gives no demand: with a raw value of zero (of
    either sign) on roll, pitch or yaw, the command is a zero, for every
    finite expo and rate. *)
Theorem centred_stick_zero_command (s : Receiver) (ch : nat)
    (Hch : ch = DEMAND_ROLL \/ ch = DEMAND_PITCH \/ ch = DEMAND_YAW)
    (Hw : length (commands s) = 4%nat)
    (Hev : F32.valid (pitchRollExpo (config s)) = true)
    (Hef : F32.is_finite (pitchRollExpo (config s)) = true)
    (Hrf : F32.is_finite (pitchRollRate (config s)) = true)
    (Hz : F32.is_zero (rawvals s !!! ch) = true) :
  F32.is_zero (commands (exec computeExpo s) !!! ch) = true.
Proof.
  rewrite computeExpo_commands by exact Hw.
  destruct Hch as [-> | [-> | ->] ];
    cbn [lookup_total list_lookup_total DEMAND_ROLL DEMAND_PITCH DEMAND_YAW] in *.
  1-2: unfold shaped_roll_pitch; apply restore_sign_zero, f32_div_zero_two,
         rcFun_zero; assumption.
  rewrite shaped_yaw_zero by exact Hz. reflexivity.
Qed.

Lemma centred_stick_zero_command_witness :
  let s := exec (update centred) booted in
  (DEMAND_ROLL = DEMAND_ROLL \/ DEMAND_ROLL = DEMAND_PITCH \/ DEMAND_ROLL = DEMAND_YAW)
  /\ length (commands s) = 4%nat
  /\ F32.valid (pitchRollExpo (config s)) = true
  /\ F32.is_finite (pitchRollExpo (config s)) = true
  /\ F32.is_finite (pitchRollRate (config s)) = true
  /\ F32.is_zero (rawvals s !!! DEMAND_ROLL) = true
  /\ F32.is_zero (commands (exec computeExpo s) !!! DEMAND_ROLL) = true.
Proof.
  cbv zeta.
  split; [left; reflexivity |]. split; [reflexivity |].
  split; [reflexivity |]. split; [reflexivity |]. split; [reflexivity |].
  split; [reflexivity |].
  apply (centred_stick_zero_command _ DEMAND_ROLL);
    [left; reflexivity | reflexivity | reflexivity | reflexivity | reflexivity
    | reflexivity].
Defined.

(** X16: with [pitchRollExpo = 0] the roll and pitch curve is the
    straight line: for a raw value of [-1,+1] the command is
    [|raw| * pitchRollRate / 2] with the sign of the raw value put
    back. *)
Theorem zero_expo_is_linear (s : Receiver) (ch : nat)
    (Hch : ch = DEMAND_ROLL \/ ch = DEMAND_PITCH)
    (Hw : length (commands s) = 4%nat)
    (He : F32.is_zero (pitchRollExpo (config s)) = true)
    (Hv : F32.valid (rawvals s !!! ch) = true)
    (Hf : F32.is_finite (rawvals s !!! ch) = true)
    (Hr : Z.abs (F32.scaled (rawvals s !!! ch)) <= 2 ^ 149) :
  commands (exec computeExpo s) !!! ch
  = restore_sign (rawvals s !!! ch)
      (F32.div (F32.mul (F32.abs (rawvals s !!! ch)) (pitchRollRate (config s)))
         (F32.of_Z 2)).
Proof.
  rewrite computeExpo_commands by exact Hw.
  transitivity (shaped_roll_pitch (config s) (rawvals s !!! ch)).
  { destruct Hch as [-> | ->]; reflexivity. }
  unfold shaped_roll_pitch. rewrite rcFun_linear; trivial.
  - rewrite f32_valid_abs. exact Hv.
  - destruct (rawvals s !!! ch); try discriminate; reflexivity.
  - rewrite f32_scaled_abs, Z.abs_idemp. exact Hr.
Qed.

Lemma zero_expo_is_linear_witness :
  let s := exec (update scenario_input) (exec (init linear_config) blank) in
  (DEMAND_PITCH = DEMAND_ROLL \/ DEMAND_PITCH = DEMAND_PITCH)
  /\ length (commands s) = 4%nat
  /\ F32.is_zero (pitchRollExpo (config s)) = true
  /\ F32.valid (rawvals s !!! DEMAND_PITCH) = true
  /\ F32.is_finite (rawvals s !!! DEMAND_PITCH) = true
  /\ Z.abs (F32.scaled (rawvals s !!! DEMAND_PITCH)) <= 2 ^ 149
  /\ commands (exec computeExpo s) !!! DEMAND_PITCH = F32.of_ratio (-3) 10.
Proof.
  cbv zeta.
  split; [right; reflexivity |]. split; [reflexivity |]. split; [reflexivity |].
  split; [reflexivity |]. split; [reflexivity |].
  split; [vm_compute; discriminate |].
  rewrite (zero_expo_is_linear _ DEMAND_PITCH);
    [vm_compute; reflexivity | right; reflexivity | reflexivity | reflexivity
    | reflexivity | reflexivity | vm_compute; discriminate].
Defined.

(** X17: the yaw command is the raw yaw halved and reversed,
    [-(raw / 2)], whatever the configuration: no expo and no rate apply
    to yaw.  (For a raw zero the command is a zero.) *)
Theorem yaw_is_half_raw_reversed (s : Receiver)
    (Hw : length (commands s) = 4%nat)
    (Hnz : F32.is_zero (rawvals s !!! DEMAND_YAW) = false) :
  commands (exec computeExpo s) !!! DEMAND_YAW
  = F32.opp (F32.div (rawvals s !!! DEMAND_YAW) (F32.of_Z 2)).
Proof.
  rewrite computeExpo_commands by exact Hw.
  cbn [lookup_total list_lookup_total DEMAND_YAW] in *.
  apply shaped_yaw_half, Hnz.
Qed.

Lemma yaw_is_half_raw_reversed_witness :
  let s := exec (update scenario_input) booted in
  length (commands s) = 4%nat
  /\ F32.is_zero (rawvals s !!! DEMAND_YAW) = false
  /\ commands (exec computeExpo s) !!! DEMAND_YAW
     = F32.opp (F32.div (rawvals s !!! DEMAND_YAW) (F32.of_Z 2)).
Proof.
  cbv zeta. split; [reflexivity |]. split; [reflexivity |].
  apply (yaw_is_half_raw_reversed (exec (update scenario_input) booted));
    reflexivity.
Defined.

(** X18: the comparison of [getAuxState] against the [double] literal 0.4
    decides, for every [float], as a comparison in [float] against 0.4f
    does (no [float] lies between the two constants): the state is LOW
    below 0, MID from 0 up to the last [float] below 0.4f, and HIGH from
    0.4f on and for NaN. *)
Theorem aux_thresholds_in_float (s : Receiver)
    (Hv : F32.valid (rawvals s !!! 4%nat) = true) :
  eval getAuxState s =
  if F32.ltb (rawvals s !!! 4%nat) (F32.of_Z 0) then AUX_LOW
  else if F32.ltb (rawvals s !!! 4%nat) (F32.of_ratio 4 10) then AUX_MID
  else AUX_HIGH.
Proof.
  unfold getAuxState, rawval, eval, bind, gets, ret. cbn [fst snd].
  destruct (f64_ltb_04 _ Hv) as [-> | ->].
  - destruct (F32.ltb _ (F32.of_Z 0)); [reflexivity |].
    destruct (F32.ltb _ _); reflexivity.
  - reflexivity.
Qed.

Lemma aux_thresholds_in_float_witness :
  let s := exec (update scenario_input) booted in
  F32.valid (rawvals s !!! 4%nat) = true
  /\ eval getAuxState s = AUX_HIGH.
Proof.
  cbv zeta. split; [reflexivity |].
  rewrite aux_thresholds_in_float by reflexivity. reflexivity.
Defined.

(** X19: the low end of the range is hit exactly: for finite bounds with
    [in_min != in_max] and an [int16_t] output range, [scaleup] of
    [x = in_min] returns [out_min]. *)
Theorem scaleup_at_in_min (in_min in_max : float) (out_min out_max : Z)
    (Hlo : int16 out_min) (Hhi : int16 out_max)
    (Hv1 : F32.valid in_min = true) (Hv2 : F32.valid in_max = true)
    (Hf1 : F32.is_finite in_min = true) (Hf2 : F32.is_finite in_max = true)
    (Hne : F32.eqb in_min in_max = false) :
  scaleup in_min in_min in_max out_min out_max = Some out_min.
Proof.
  unfold scaleup.
  pose proof (f32_sub_diag in_min Hf1) as Hz.
  pose proof (scaleup_span out_min out_max Hlo Hhi) as Hs.
  pose proof (f32_mul_zero_l _ _ Hz Hs) as Hp.
  pose proof (f32_sub_nonzero in_max in_min Hv2 Hv1 (f32_eqb_sym_false _ _ Hne)) as Hd.
  pose proof (f32_sub_finite_not_nan in_max in_min Hv2 Hv1 Hf2 Hf1) as Hn.
  assert (Hq : F32.is_zero (F32.div
            (F32.mul (F32.sub in_min in_min) (F32.of_Z (i32 (out_max - out_min))))
            (F32.sub in_max in_min)) = true).
  { destruct (F32.mul _ _); try discriminate.
    destruct (F32.sub in_max in_min); try discriminate; try reflexivity.
    congruence. }
  pose proof (to_int16_of_Z out_min Hlo) as Ht.
  destruct (F32.div _ _) as [sq| | |]; try discriminate.
  destruct (F32.of_Z out_min) as [so|so| |so mo eo] eqn:Eo; try exact Ht.
  destruct (Z.eq_dec out_min 0) as [-> | Hnz].
  - destruct sq, so; reflexivity.
  - exfalso. unfold F32.to_int16, F32.trunc in Ht.
    destruct (_ && _) in Ht; congruence.
Qed.

Lemma scaleup_at_in_min_witness :
  int16 1000 /\ int16 2000
  /\ F32.valid (F32.of_Z (-1)) = true /\ F32.valid (F32.of_Z 1) = true
  /\ F32.is_finite (F32.of_Z (-1)) = true /\ F32.is_finite (F32.of_Z 1) = true
  /\ F32.eqb (F32.of_Z (-1)) (F32.of_Z 1) = false
  /\ scaleup (F32.of_Z (-1)) (F32.of_Z (-1)) (F32.of_Z 1) 1000 2000 = Some 1000.
Proof.
  assert (H1 : int16 1000) by (unfold int16; lia).
  assert (H2 : int16 2000) by (unfold int16; lia).
  split; [exact H1 |]. split; [exact H2 |].
  repeat (split; [reflexivity |]).
  apply (scaleup_at_in_min (F32.of_Z (-1)) (F32.of_Z 1) 1000 2000 H1 H2); reflexivity.
Defined.

(** X20: an empty input range is outside what [scaleup] handles: with
    [in_min == in_max] the quotient is an infinity or NaN for every [x]
    and every output range, and its conversion to [int16_t] is undefined
    ([None]). *)
Theorem scaleup_empty_range (x in_min in_max : float) (out_min out_max : Z)
    (Heq : F32.eqb in_min in_max = true) :
  scaleup x in_min in_max out_min out_max = None.
Proof.
  unfold scaleup.
  pose proof (f32_eqb_sub_zn _ _ Heq) as Hd.
  pose proof (f32_div_by_zero
                (F32.mul (F32.sub x in_min) (F32.of_Z (i32 (out_max - out_min))))
                _ Hd) as Hq.
  pose proof (f32_add_not_finite _ (F32.of_Z out_min) Hq) as Ha.
  unfold F32.to_int16, F32.trunc.
  destruct (F32.add _ _); try discriminate; reflexivity.
Qed.

Lemma scaleup_empty_range_witness :
  F32.eqb (F32.of_Z 1) (F32.of_Z 1) = true
  /\ scaleup (F32.of_ratio 1 2) (F32.of_Z 1) (F32.of_Z 1) 1000 2000 = None.
Proof.
  split; [reflexivity |].
  apply (scaleup_empty_range (F32.of_ratio 1 2) (F32.of_Z 1) (F32.of_Z 1) 1000 2000).
  reflexivity.
Defined.

(** X21: whenever [extrasUpdate] is defined, it computes five
    distances, one for each sonar, each within the MB142 range of 20 to
    765 cm. *)
Theorem sonar_distances_in_range (sim : Sonar.Simulator) (sonarHandles : list Z)
    (sonarDistances : list Z) (out : String.string)
    (H : Sonar.extrasUpdate sim sonarHandles = Some (sonarDistances, out)) :
  length sonarDistances = 5%nat
  /\ Forall (fun d => 20 <= d <= 765) sonarDistances.
Proof.
  unfold Sonar.extrasUpdate in H. cbn [foldl seq] in H.
  destruct (Sonar.sonar sim sonarHandles 4 _) as [ [l5 o5] |] eqn:E5; [| discriminate].
  injection H as <- _.
  apply sonar_step_inv in E5 as (l4 & o4 & d4 & E4 & -> & H4).
  apply sonar_step_inv in E4 as (l3 & o3 & d3 & E3 & -> & H3).
  apply sonar_step_inv in E3 as (l2 & o2 & d2 & E2 & -> & H2).
  apply sonar_step_inv in E2 as (l1 & o1 & d1 & E1 & -> & H1).
  apply sonar_step_inv in E1 as (l0 & o0 & d0 & E0 & -> & H0).
  injection E0 as <- _.
  split; [reflexivity |]. repeat constructor; lia.
Qed.

Lemma sonar_distances_in_range_witness :
  exists out,
    Sonar.extrasUpdate wall (Sonar.extrasStart wall (replicate 5 0))
    = Some (replicate 5 150, out)
    /\ length (replicate 5 150) = 5%nat
    /\ Forall (fun d => 20 <= d <= 765) (replicate 5 150).
Proof.
  eexists. split; [vm_compute; reflexivity |].
  eapply (sonar_distances_in_range wall (Sonar.extrasStart wall (replicate 5 0))).
  vm_compute. reflexivity.
Defined.

(** X22: when no sonar detects anything, [extrasUpdate] is defined and
    reports 20 cm for each of the five sonars: the detected point, which
    the simulator has not written, is not read. *)
Theorem sonar_nothing_detected (sim : Sonar.Simulator) (sonarHandles : list Z)
    (H : forall k, (k < 5)%nat ->
           fst (Sonar.simReadProximitySensor sim (sonarHandles !!! k)) <= 0) :
  option_map fst (Sonar.extrasUpdate sim sonarHandles) = Some (replicate 5 20).
Proof.
  unfold Sonar.extrasUpdate. cbn [foldl seq]. unfold Sonar.sonar.
  pose proof (H 0%nat ltac:(lia)) as H0. pose proof (H 1%nat ltac:(lia)) as H1.
  pose proof (H 2%nat ltac:(lia)) as H2. pose proof (H 3%nat ltac:(lia)) as H3.
  pose proof (H 4%nat ltac:(lia)) as H4.
  destruct (Sonar.simReadProximitySensor sim (sonarHandles !!! 0%nat)) as [r0 d0].
  destruct (Sonar.simReadProximitySensor sim (sonarHandles !!! 1%nat)) as [r1 d1].
  destruct (Sonar.simReadProximitySensor sim (sonarHandles !!! 2%nat)) as [r2 d2].
  destruct (Sonar.simReadProximitySensor sim (sonarHandles !!! 3%nat)) as [r3 d3].
  destruct (Sonar.simReadProximitySensor sim (sonarHandles !!! 4%nat)) as [r4 d4].
  cbn [fst] in *.
  destruct (Z.ltb_spec 0 r0); [lia |]. destruct (Z.ltb_spec 0 r1); [lia |].
  destruct (Z.ltb_spec 0 r2); [lia |]. destruct (Z.ltb_spec 0 r3); [lia |].
  destruct (Z.ltb_spec 0 r4); [lia |].
  vm_compute. reflexivity.
Qed.

Lemma sonar_nothing_detected_witness :
  let sonarHandles := Sonar.extrasStart quiet (replicate 5 0) in
  (forall k, (k < 5)%nat ->
     fst (Sonar.simReadProximitySensor quiet (sonarHandles !!! k)) <= 0)
  /\ option_map fst (Sonar.extrasUpdate quiet sonarHandles) = Some (replicate 5 20).
Proof.
  cbv zeta.
  assert (H : forall k, (k < 5)%nat ->
     fst (Sonar.simReadProximitySensor quiet
            (Sonar.extrasStart quiet (replicate 5 0) !!! k)) <= 0)
    by (intros k _; simpl; lia).
  split; [exact H |].
  exact (sonar_nothing_detected quiet _ H).
Defined.

(** * Part VI: [scaleup] against the exact value of its formula (C9) *)

(** ** The value that rounding returns *)






(** ** The relative error of one operation *)



(** ** The four operations *)


















(** ** Truncated quotients of two close fractions *)





(** ** The accumulated error of the five operations

    [u = x - in_min], [w = in_max - in_min], [D] the output span and
    [lo = out_min]; [S1 .. S5] the results of the five binary32
    operations, everything in units of [2^-149] ([P = 2^149]). *)

Section Chain.

Variables u w D lo P : Z.
Hypothesis HP : 32 <= P.
Hypothesis Hw : w <> 0.
Hypothesis Hlo : Z.abs lo <= 32768.
Hypothesis Hc : Z.abs (u * D + lo * w) <= 32768 * Z.abs w.


Variables S1 S2 S3 : Z.
Hypothesis F1 : Z.abs (S1 - u) * 2 ^ 23 <= Z.abs u.
Hypothesis F2 : Z.abs (S2 - S1 * D) * 2 ^ 23 <= Z.abs (S1 * D).
Hypothesis F3 : Z.abs (S3 - w) * 2 ^ 23 <= Z.abs w.








Variables S4 U : Z.
Hypothesis HU : 0 < U.
Hypothesis F4 : Z.abs (S4 * S3 - S2 * P) <= U * Z.abs S3.
Hypothesis F4u : U = 1 \/ U * 2 ^ 23 * Z.abs S3 <= Z.abs S2 * P.




Variable S5 : Z.
Hypothesis F5 : Z.abs (S5 - (S4 + lo * P)) * 2 ^ 23 <= Z.abs (S4 + lo * P).



End Chain.

(** ** The exact value as a fraction *)






(** ** Linear range scaling (C9) *)



